(** * xtts-api-server: the synthesis core of [xtts_api_server/tts_funcs.py]

    A shallow embedding of class [TTSWrapper]: speaker resolution
    ([get_speaker_wav], [_get_speakers]), the latent cache
    ([get_or_create_latents]), the device switch ([switch_model_device]),
    text clean-up ([clean_text]) and the orchestration
    ([process_tts_to_file]), followed by the properties of each.

    Conventions of the embedding.
    - File-system paths are [string]s and [os.path] is [posixpath].
    - The text to speak is a Python [str], a sequence of Unicode code points:
      [list N].
    - The operating system, [torch] and the loaded model are external; they are
      the fields of a [World], and every theorem quantifies over it.
    - A method is a function from the object's state to the new state and
      either a value or the exception raised ([M]); a mutation made before a
      [raise] stays visible, as in Python. *)

From Stdlib Require Import ZArith NArith Ascii String List Bool Lia.
From stdpp Require Import base strings gmap list.

Open Scope Z_scope.
Open Scope nat_scope.

(** ** Python strings used as paths *)

Module PyStr.

(** [s.startswith(p)] *)
Definition startswith (s p : string) : bool := String.prefix p s.

(** [s.endswith(p)] *)
Definition endswith (s p : string) : bool :=
  let n := String.length s in
  let m := String.length p in
  if m <=? n then String.eqb (String.substring (n - m) m s) p else false.

(** [s.rfind(c)] for a one-character needle: the highest index, or -1. *)
Fixpoint rfind_from (c : ascii) (s : string) (i : Z) (best : Z) : Z :=
  match s with
  | EmptyString => best
  | String x s' =>
      rfind_from c s' (i + 1)%Z (if Ascii.eqb x c then i else best)
  end.

Definition rfind (s : string) (c : ascii) : Z := rfind_from c s 0%Z (-1)%Z.

(** [s[:i]] and [s[i:]] for [0 <= i]. *)
Definition slice_to (s : string) (i : nat) : string := String.substring 0 i s.
Definition slice_from (s : string) (i : nat) : string :=
  String.substring i (String.length s - i) s.

End PyStr.

(** ** [os.path] (posixpath) *)

Module OsPath.
Import PyStr.

Definition sep : string := "/".

(** [os.path.isabs(s)]: [s.startswith('/')]. *)
Definition isabs (s : string) : bool := startswith s sep.

(** One round of the loop of [posixpath.join]. *)
Definition join_step (path b : string) : string :=
  if startswith b sep then b
  else if (String.eqb path EmptyString || endswith path sep)%bool then path +:+ b
  else path +:+ sep +:+ b.

(** [os.path.join(a, *p)] *)
Definition join (a : string) (p : list string) : string :=
  fold_left join_step p a.

(** The loop of [genericpath._splitext] that skips leading dots: from
    [filenameIndex], over [n = dotIndex - filenameIndex] characters, is
    there one that is not a dot? *)
Fixpoint has_non_dot (p : string) (filenameIndex n : nat) : bool :=
  match n with
  | O => false
  | S n' =>
      match String.get filenameIndex p with
      | Some c =>
          if Ascii.eqb c "."%char then has_non_dot p (S filenameIndex) n'
          else true
      | None => true
      end
  end.

(** [os.path.splitext(p)] *)
Definition splitext (p : string) : string * string :=
  let sepIndex := rfind p "/"%char in
  let dotIndex := rfind p "."%char in
  if (sepIndex <? dotIndex)%Z then
    let filenameIndex := Z.to_nat (sepIndex + 1) in
    if has_non_dot p filenameIndex (Z.to_nat dotIndex - filenameIndex)
    then (slice_to p (Z.to_nat dotIndex), slice_from p (Z.to_nat dotIndex))
    else (p, EmptyString)
  else (p, EmptyString).

End OsPath.

(** ** Exceptions and results *)

Inductive exn : Type :=
| NameError (name : string)      (* name 'x' is not defined *)
| ValueError (msg : string)
| OSError (path : string)        (* raised by os.listdir *)
| KeyError (key : string)
| BackendError (code : N).       (* whatever the model or torchaudio raises *)

Inductive result (A : Type) : Type :=
| Ok (a : A)
| Raise (e : exn).
Arguments Ok {A} a.
Arguments Raise {A} e.

Definition bind_result {A B} (r : result A) (k : A -> result B) : result B :=
  match r with
  | Ok a => k a
  | Raise e => Raise e
  end.

Declare Scope py_scope.
Delimit Scope py_scope with py.
Notation "'let?' x := r 'in' k" := (bind_result r (fun x => k))
  (at level 10, x name, r at level 100, k at level 200) : py_scope.

(** Reading a variable inside a function body. The frame holds the function's
    string-valued locals. A name that is not a local is looked up at module
    level and then in [builtins]; [tts_funcs.py] binds only its imports,
    [supported_languages], [reversed_supported_languages] and [TTSWrapper]
    there, so any other identifier that is not a builtin raises [NameError]. *)
Definition frame := list (string * string).

Fixpoint load_name (f : frame) (x : string) : result string :=
  match f with
  | [] => Raise (NameError x)
  | (y, v) :: f' => if String.eqb x y then Ok v else load_name f' x
  end.

(** The value of [speaker_wav]: one path, or a list of paths. *)
Inductive speaker_wav : Type :=
| WavPath (p : string)
| WavList (ps : list string).


(** ** Regular expressions: the fragment of [re] used by [clean_text] *)

Module Re.

(** Python's [\s] on [str] patterns: the code points for which
    [str.isspace] holds. *)
Definition is_space (c : N) : bool :=
  ((9 <=? c) && (c <=? 13) || (28 <=? c) && (c <=? 32)
   || (c =? 133) || (c =? 160) || (c =? 5760)
   || (8192 <=? c) && (c <=? 8202)
   || (c =? 8232) || (c =? 8233) || (c =? 8239) || (c =? 8287)
   || (c =? 12288))%N%bool.

Inductive cclass : Type :=
| Chr (c : N)            (* a literal character *)
| OneOf (cs : list N)    (* [...] *)
| Space                  (* \s *)
| Dot.                   (* . : anything but a line feed *)

Definition cmatch (k : cclass) (c : N) : bool :=
  match k with
  | Chr d => (c =? d)%N
  | OneOf cs => existsb (N.eqb c) cs
  | Space => is_space c
  | Dot => negb (c =? 10)%N
  end.

Inductive item : Type :=
| One (k : cclass)         (* k *)
| Opt (k : cclass)         (* k?   greedy *)
| LazyGroup (k : cclass).  (* (k*?)  lazy, capturing group 1 *)

Definition regex := list item.

(** The lazy star [(k*?)] followed by the rest of the pattern [cont]: try
    the rest first, and take one more character only when the rest fails.
    [acc] is the text taken so far, reversed. *)
Fixpoint lazy_star (k : cclass)
         (cont : list N -> list N -> option (list N * list N))
         (s : list N) (acc : list N) {struct s}
  : option (list N * list N) :=
  match cont s (rev acc) with
  | Some m => Some m
  | None =>
      match s with
      | c :: s' => if cmatch k c then lazy_star k cont s' (c :: acc) else None
      | [] => None
      end
  end.

(** Backtracking match of [r] at the head of [s], in the order in which
    [re] tries the alternatives: [Some (g, rest)] is the first way to match,
    with [g] the text of group 1 and [rest] the input after the match. *)
Fixpoint rmatch (r : regex) (s : list N) (g : list N) {struct r}
  : option (list N * list N) :=
  match r with
  | [] => Some (g, s)
  | One k :: r' =>
      match s with
      | c :: s' => if cmatch k c then rmatch r' s' g else None
      | [] => None
      end
  | Opt k :: r' =>
      match s with
      | c :: s' =>
          if cmatch k c then
            match rmatch r' s' g with
            | Some m => Some m
            | None => rmatch r' s g
            end
          else rmatch r' s g
      | [] => rmatch r' s g
      end
  | LazyGroup k :: r' => lazy_star k (rmatch r') s []
  end.

(** [re.sub(r, repl, s)]: scan from the left; where [r] matches, emit
    [repl] of group 1 and resume after the match; elsewhere copy the
    character. [skip] counts the characters of the current match still to
    be dropped. An empty match emits [repl] and copies the character
    (Python 3.7 and later). *)
Fixpoint sub_scan (r : regex) (repl : list N -> list N) (skip : nat)
         (s : list N) : list N :=
  match s with
  | [] =>
      match skip, rmatch r [] [] with
      | O, Some (g, _) => repl g
      | _, _ => []
      end
  | c :: s' =>
      match skip with
      | S n => sub_scan r repl n s'
      | O =>
          match rmatch r s [] with
          | Some (g, rest) =>
              let consumed := length s - length rest in
              match consumed with
              | O => repl g ++ c :: sub_scan r repl 0 s'
              | S n => repl g ++ sub_scan r repl n s'
              end
          | None => c :: sub_scan r repl 0 s'
          end
      end
  end.

Definition sub (r : regex) (repl : list N -> list N) (s : list N) : list N :=
  sub_scan r repl 0 s.

End Re.

(** Code points of the characters that [clean_text] names. *)
Definition ASTERISK : N := 42.
Definition CR : N := 13.
Definition LF : N := 10.
Definition DQUOTE : N := 34.
Definition SQUOTE : N := 39.

(** The code points of an ASCII literal. *)
Definition str (s : string) : list N :=
  map N_of_ascii (list_ascii_of_string s).

(** [clean_text]: the two [re.sub] calls. The first pattern is the class of
    asterisk, carriage return and line feed, replaced by the empty string. The
    second is: a double quote, an optional space, a lazy capturing group of
    any characters, an optional space, a double quote; it is replaced by the
    group between single quotes. *)
Definition re_strip : Re.regex := [Re.One (Re.OneOf [ASTERISK; CR; LF])].
Definition re_quoted : Re.regex :=
  [Re.One (Re.Chr DQUOTE); Re.Opt Re.Space; Re.LazyGroup Re.Dot;
   Re.Opt Re.Space; Re.One (Re.Chr DQUOTE)].

Definition clean_text (text : list N) : list N :=
  let text := Re.sub re_strip (fun _ => []) text in
  let text := Re.sub re_quoted (fun g => [SQUOTE] ++ g ++ [SQUOTE]) text in
  text.


(** ** The world outside the object *)

(** Tensors are opaque to this code. *)
Inductive tensor : Type := Tensor (handle : N).

Definition latents : Type := tensor * tensor.

(** Calls made on the model and on [torch], most recent first. *)
Inductive event : Type :=
| ModelTo (dev : string)                (* self.model.to(dev) *)
| EmptyCache                            (* torch.cuda.empty_cache() *)
| GetConditioningLatents (wav : speaker_wav)
| Inference
| Save (path : string)
| TtsToFile (path : string).

(** What the operating system, [torch], [torchaudio] and the loaded model
    answer. The model's answers may depend on the device it resides on, and
    the conditioning latents also on how many extractions came before.
    Moving the model and emptying the accelerator's cache may raise (the
    accelerator may be out of memory), depending on the calls made before;
    [model_to] is given those calls, the device of the last move that
    returned and the device asked for. *)
Record World : Type := {
  isdir : string -> bool;                        (* os.path.isdir *)
  isfile : string -> bool;                       (* os.path.isfile *)
  listdir : string -> option (list string);      (* os.listdir; None: OSError *)
  cuda_is_available : bool;                      (* torch.cuda.is_available() *)
  model_to : list event -> string -> string -> result unit;  (* model.to *)
  cuda_empty_cache : list event -> result unit;  (* torch.cuda.empty_cache() *)
  get_conditioning_latents :
    string -> nat -> speaker_wav -> result latents;
  inference :
    string -> list N -> string -> tensor -> tensor -> result tensor;
  torchaudio_save : string -> tensor -> result unit;
  tts_to_file :
    string -> list N -> speaker_wav -> string -> string -> result unit
}.

(** ** The object *)

(** The attributes of [TTSWrapper] that the synthesis path reads or writes,
    with two ghost fields: [model_device], the device where the model was
    loaded or, after that, the device of the last [self.model.to] that
    returned, and [calls], the calls made, each logged when it is made,
    whether it then returns or raises. *)
Record TTSWrapper : Type := {
  cuda : string;
  device : string;
  lowvram : bool;
  latents_cache : gmap string latents;
  model_source : string;
  speaker_folder : string;
  output_folder : string;
  model_device : string;
  calls : list event
}.

Definition set_device (d : string) (self : TTSWrapper) : TTSWrapper :=
  {| cuda := cuda self; device := d; lowvram := lowvram self;
     latents_cache := latents_cache self; model_source := model_source self;
     speaker_folder := speaker_folder self;
     output_folder := output_folder self;
     model_device := model_device self; calls := calls self |}.

Definition set_latents_cache (c : gmap string latents) (self : TTSWrapper)
  : TTSWrapper :=
  {| cuda := cuda self; device := device self; lowvram := lowvram self;
     latents_cache := c; model_source := model_source self;
     speaker_folder := speaker_folder self;
     output_folder := output_folder self;
     model_device := model_device self; calls := calls self |}.

Definition set_model_device (d : string) (self : TTSWrapper) : TTSWrapper :=
  {| cuda := cuda self; device := device self; lowvram := lowvram self;
     latents_cache := latents_cache self; model_source := model_source self;
     speaker_folder := speaker_folder self;
     output_folder := output_folder self;
     model_device := d; calls := calls self |}.

Definition record (e : event) (self : TTSWrapper) : TTSWrapper :=
  {| cuda := cuda self; device := device self; lowvram := lowvram self;
     latents_cache := latents_cache self; model_source := model_source self;
     speaker_folder := speaker_folder self;
     output_folder := output_folder self;
     model_device := model_device self; calls := e :: calls self |}.

(** The number of conditioning extractions made so far. *)
Definition is_extraction (e : event) : bool :=
  match e with GetConditioningLatents _ => true | _ => false end.

Definition extractions (self : TTSWrapper) : nat :=
  length (List.filter is_extraction (calls self)).

(** ** Methods: state and exceptions *)

Definition M (A : Type) : Type := TTSWrapper -> TTSWrapper * result A.

Definition ret {A} (a : A) : M A := fun self => (self, Ok a).
Definition raise {A} (e : exn) : M A := fun self => (self, Raise e).
Definition bind {A B} (m : M A) (k : A -> M B) : M B :=
  fun self =>
    match m self with
    | (self', Ok a) => k a self'
    | (self', Raise e) => (self', Raise e)
    end.
Definition get : M TTSWrapper := fun self => (self, Ok self).
Definition modify (f : TTSWrapper -> TTSWrapper) : M unit :=
  fun self => (f self, Ok tt).
Definition lift {A} (r : result A) : M A := fun self => (self, r).

Notation "'let!' x := m 'in' k" := (bind m (fun x => k))
  (at level 10, x name, m at level 100, k at level 200) : py_scope.
Notation "m ;; k" := (bind m (fun _ => k))
  (at level 100, k at level 200, right associativity) : py_scope.

(** [try: body except Exception as e: raise e]: the handler raises what it
    caught. *)
Definition try_except_reraise {A} (body : M A) : M A :=
  fun self =>
    match body self with
    | (self', Ok a) => (self', Ok a)
    | (self', Raise e) => (self', Raise e)
    end.

Open Scope py_scope.

Section Methods.

Import PyStr OsPath.
Variable w : World.

(** [switch_model_device] *)
Definition switch_enabled (self : TTSWrapper) : bool :=
  lowvram self && cuda_is_available w && negb (String.eqb (cuda self) "cpu").

(** The field [self.device] is assigned before [self.model.to] is called:
    when that call raises, the field keeps the new value. *)
Definition switch_model_device : M unit :=
  let! self := get in
  if switch_enabled self then
    (if String.eqb (device self) (cuda self)
     then modify (set_device "cpu")
     else modify (set_device (cuda self))) ;;
    let! self := get in
    modify (record (ModelTo (device self))) ;;
    lift (model_to w (calls self) (model_device self) (device self)) ;;
    modify (set_model_device (device self)) ;;
    let! self := get in
    if String.eqb (device self) "cpu"
    then
      modify (record EmptyCache) ;;
      lift (cuda_empty_cache w (calls self))
    else ret tt
  else ret tt.

(** [get_or_create_latents] *)
Definition get_or_create_latents (speaker_name : string)
           (wav : speaker_wav) : M latents :=
  let! self := get in
  (if negb (bool_decide (is_Some (latents_cache self !! speaker_name)))
   then
     modify (record (GetConditioningLatents wav)) ;;
     let! v := lift (get_conditioning_latents w (model_device self)
                       (extractions self) wav) in
     modify (fun s => set_latents_cache
                        (<[speaker_name := v]> (latents_cache s)) s)
   else ret tt) ;;
  let! self := get in
  match latents_cache self !! speaker_name with
  | Some v => ret v
  | None => raise (KeyError speaker_name)
  end.

(** [get_wav_files] *)
Definition get_wav_files (directory : string) : result (list string) :=
  match listdir w directory with
  | Some entries => Ok (List.filter (fun f => endswith f ".wav") entries)
  | None => Raise (OSError directory)
  end.

(** [_get_speakers] *)
Record speaker : Type := {
  speaker_name : string;
  speaker_wavs : speaker_wav;
  preview : string
}.

Fixpoint _get_speakers_loop (folder : string) (entries : list string)
         (speakers : list speaker) : result (list speaker) :=
  match entries with
  | [] => Ok speakers
  | f :: entries' =>
      let full_path := join folder [f] in
      if isdir w full_path then
        let? subdir_files := get_wav_files full_path in
        match subdir_files with
        | [] => _get_speakers_loop folder entries' speakers
        | first :: _ =>
            _get_speakers_loop folder entries'
              (speakers ++
               [{| speaker_name := f;
                   speaker_wavs :=
                     WavList (map (fun s => join folder [f; s]) subdir_files);
                   preview := join f [first] |}])
        end
      else if endswith f ".wav" then
        _get_speakers_loop folder entries'
          (speakers ++
           [{| speaker_name := fst (splitext f);
               speaker_wavs := WavPath full_path;
               preview := f |}])
      else _get_speakers_loop folder entries' speakers
  end.

Definition _get_speakers (self : TTSWrapper) : result (list speaker) :=
  match listdir w (speaker_folder self) with
  | Some entries => _get_speakers_loop (speaker_folder self) entries []
  | None => Raise (OSError (speaker_folder self))
  end.

(** [get_speakers] *)
Definition get_speakers (self : TTSWrapper) : result (list string) :=
  let? speakers := _get_speakers self in
  Ok (map speaker_name speakers).

(** [get_speaker_wav]. The test of the absolute path reads the name
    [spekaer_name_or_path], as the source spells it. *)
Definition get_speaker_wav (self : TTSWrapper)
           (speaker_name_or_path : string) : result speaker_wav :=
  let locals : frame :=
    [("speaker_name_or_path"%string, speaker_name_or_path)] in
  if endswith speaker_name_or_path ".wav" then
    let? p := load_name locals "spekaer_name_or_path" in
    if isabs p then Ok (WavPath speaker_name_or_path)
    else Ok (WavPath (join (speaker_folder self) [speaker_name_or_path]))
  else
    let full_path := join (speaker_folder self) [speaker_name_or_path] in
    let wav_file := full_path +:+ ".wav" in
    if isdir w full_path then
      let? names := get_wav_files full_path in
      let speaker_wav := map (fun wav => join full_path [wav]) names in
      if length speaker_wav =? 0 then
        Raise (ValueError ("no wav files found in " +:+ full_path))
      else Ok (WavList speaker_wav)
    else if isfile w wav_file then Ok (WavPath wav_file)
    else
      Raise (ValueError ("Speaker " +:+ speaker_name_or_path
                         +:+ " not found.")).

(** [local_generation]; the sampling parameters are constants of the call
    and the timing is only logged. *)
Definition local_generation (text : list N) (speaker_name : string)
           (wav : speaker_wav) (language output_file : string) : M unit :=
  let! l := get_or_create_latents speaker_name wav in
  let! self := get in
  modify (record Inference) ;;
  let! out := lift (inference w (model_device self) text language
                      (fst l) (snd l)) in
  modify (record (Save output_file)) ;;
  lift (torchaudio_save w output_file out).

(** [api_generation] *)
Definition api_generation (text : list N) (wav : speaker_wav)
           (language output_file : string) : M unit :=
  let! self := get in
  modify (record (TtsToFile output_file)) ;;
  lift (tts_to_file w (model_device self) text wav language output_file).

(** The output path of [process_tts_to_file]. *)
Definition output_path (self : TTSWrapper) (file_name_or_path : string)
  : string :=
  if isabs file_name_or_path then file_name_or_path
  else join (output_folder self) [file_name_or_path].

(** The backend dispatch of [process_tts_to_file]: the [if] on
    [self.model_source]. *)
Definition backend_dispatch (clear_text : list N)
           (speaker_name_or_path : string) (wav : speaker_wav)
           (language output_file : string) : M unit :=
  let! self := get in
  if String.eqb (model_source self) "local"
  then local_generation clear_text speaker_name_or_path wav language
         output_file
  else api_generation clear_text wav language output_file.

(** [process_tts_to_file] *)
Definition process_tts_to_file (text : list N)
           (speaker_name_or_path language file_name_or_path : string)
  : M string :=
  try_except_reraise (
    let! self := get in
    let! wav := lift (get_speaker_wav self speaker_name_or_path) in
    let output_file := output_path self file_name_or_path in
    let clear_text := clean_text text in
    switch_model_device ;;
    backend_dispatch clear_text speaker_name_or_path wav language
      output_file ;;
    switch_model_device ;;
    ret output_file).

End Methods.

(** ** A concrete file system and concrete worlds

    Directory trees with entries in listing order; used to run the methods on
    explicit inputs. *)

Module Tree.

#[local] Set Warnings "-register-all".

Inductive node : Type :=
| File
| Dir (entries : list (string * node)).

(** The components of a path, split at the separator. *)
Fixpoint split_path (s : string) (cur : string) : list string :=
  match s with
  | EmptyString => [cur]
  | String c s' =>
      if Ascii.eqb c "/"%char then cur :: split_path s' EmptyString
      else split_path s' (cur +:+ String c EmptyString)
  end.

Definition components (s : string) : list string :=
  List.filter
    (fun c => negb (String.eqb c EmptyString || String.eqb c "."))
    (split_path s EmptyString).

Fixpoint assoc (k : string) (es : list (string * node)) : option node :=
  match es with
  | [] => None
  | (k', n) :: es' => if String.eqb k k' then Some n else assoc k es'
  end.

Fixpoint walk (n : node) (cs : list string) : option node :=
  match cs with
  | [] => Some n
  | c :: cs' =>
      match n with
      | Dir es =>
          match assoc c es with
          | Some n' => walk n' cs'
          | None => None
          end
      | File => None
      end
  end.

(** Relative paths are taken from the root. *)
Definition find (root : node) (path : string) : option node :=
  walk root (components path).

Definition isdir (root : node) (path : string) : bool :=
  match find root path with Some (Dir _) => true | _ => false end.

Definition isfile (root : node) (path : string) : bool :=
  match find root path with Some File => true | _ => false end.

Definition listdir (root : node) (path : string) : option (list string) :=
  match find root path with
  | Some (Dir es) => Some (map fst es)
  | _ => None
  end.

End Tree.

Module Demo.

(** /speakers holds alice.wav, bob/ with two samples, notes.txt, an
    audio-less directory carol/ next to carol.wav; /voices/dave/ holds one
    sample outside the speaker folder. *)
Definition root : Tree.node :=
  Tree.Dir
    [("speakers"%string,
      Tree.Dir
        [("alice.wav"%string, Tree.File);
         ("bob"%string,
          Tree.Dir [("b1.wav"%string, Tree.File);
                    ("readme.txt"%string, Tree.File);
                    ("b2.wav"%string, Tree.File)]);
         ("notes.txt"%string, Tree.File);
         ("carol"%string, Tree.Dir [("todo.txt"%string, Tree.File)]);
         ("carol.wav"%string, Tree.File)]);
     ("voices"%string,
      Tree.Dir [("dave"%string, Tree.Dir [("d1.wav"%string, Tree.File)])]);
     ("out"%string, Tree.Dir [])].

(** A model whose calls succeed: the n-th extraction returns tensors
    numbered from n. *)
Definition world (cuda_available : bool) : World :=
  {| isdir := Tree.isdir root;
     isfile := Tree.isfile root;
     listdir := Tree.listdir root;
     cuda_is_available := cuda_available;
     model_to := fun _ _ _ => Ok tt;
     cuda_empty_cache := fun _ => Ok tt;
     get_conditioning_latents :=
       fun _ n _ => Ok (Tensor (N.of_nat n), Tensor (N.of_nat n + 1000));
     inference := fun _ _ _ _ _ => Ok (Tensor 7);
     torchaudio_save := fun _ _ => Ok tt;
     tts_to_file := fun _ _ _ _ _ => Ok tt |}.

(** The same, with a model whose inference raises. *)
Definition failing_world (cuda_available : bool) : World :=
  {| isdir := Tree.isdir root;
     isfile := Tree.isfile root;
     listdir := Tree.listdir root;
     cuda_is_available := cuda_available;
     model_to := fun _ _ _ => Ok tt;
     cuda_empty_cache := fun _ => Ok tt;
     get_conditioning_latents :=
       fun _ n _ => Ok (Tensor (N.of_nat n), Tensor (N.of_nat n + 1000));
     inference := fun _ _ _ _ _ => Raise (BackendError 1);
     torchaudio_save := fun _ _ => Ok tt;
     tts_to_file := fun _ _ _ _ _ => Raise (BackendError 2) |}.

(** The same as [world], with an accelerator that has no room for the
    model: moving it anywhere but to host memory raises. *)
Definition oom_world (cuda_available : bool) : World :=
  {| isdir := Tree.isdir root;
     isfile := Tree.isfile root;
     listdir := Tree.listdir root;
     cuda_is_available := cuda_available;
     model_to :=
       fun _ _ dev =>
         if String.eqb dev "cpu" then Ok tt else Raise (BackendError 3);
     cuda_empty_cache := fun _ => Ok tt;
     get_conditioning_latents :=
       fun _ n _ => Ok (Tensor (N.of_nat n), Tensor (N.of_nat n + 1000));
     inference := fun _ _ _ _ _ => Ok (Tensor 7);
     torchaudio_save := fun _ _ => Ok tt;
     tts_to_file := fun _ _ _ _ _ => Ok tt |}.

(** The object as [__init__] leaves it, with the model loaded on
    [self.device]. *)
Definition init (low : bool) (cuda_available : bool) (source dev : string)
  : TTSWrapper :=
  let d := if low then "cpu"%string
           else if cuda_available then dev else "cpu"%string in
  {| cuda := dev; device := d; lowvram := low;
     latents_cache := ∅; model_source := source;
     speaker_folder := "/speakers"; output_folder := "/out";
     model_device := d; calls := [] |}.

End Demo.

(** ** The rest of the class *)

(** *** The warm-up of the cache and the catalogue of speakers *)

Section MoreMethods.

Import PyStr OsPath.
Variable w : World.

(** [create_latents_for_all]: the loop over the speakers of the registry. *)
Fixpoint create_latents_loop (speakers_list : list speaker) : M unit :=
  match speakers_list with
  | [] => ret tt
  | speaker :: rest =>
      get_or_create_latents w (speaker_name speaker) (speaker_wavs speaker) ;;
      create_latents_loop rest
  end.

Definition create_latents_for_all : M unit :=
  let! self := get in
  let! speakers_list := lift (_get_speakers w self) in
  create_latents_loop speakers_list.

End MoreMethods.

(** [os.getenv(key, default)] over the environment of the process. *)
Definition getenv (environ : string -> option string) (key default : string)
  : string :=
  match environ key with
  | Some v => v
  | None => default
  end.

Module Special.

(** The records that [get_speakers_special] returns. *)
Record speaker_special : Type := {
  name : string;
  voice_id : string;
  preview_url : string
}.

End Special.

(** [get_speakers_special] *)
Definition get_speakers_special (w : World)
           (environ : string -> option string) (self : TTSWrapper)
  : result (list Special.speaker_special) :=
  let BASE_URL := getenv environ "BASE_URL" "127.0.0.1:8020" in
  let TUNNEL_URL := getenv environ "TUNNEL_URL" EmptyString in
  let? speakers := _get_speakers w self in
  Ok (map (fun speaker =>
             let preview_url :=
               if String.eqb TUNNEL_URL EmptyString
               then BASE_URL +:+ "/sample/" +:+ preview speaker
               else TUNNEL_URL +:+ "/sample/" +:+ preview speaker in
             {| Special.name := speaker_name speaker;
                Special.voice_id := speaker_name speaker;
                Special.preview_url := preview_url |})
          speakers).

(** *** The language table *)

(** A Python [dict] from strings to strings, in insertion order. *)
Definition dict : Type := list (string * string).

(** [d[k]], or [None] where Python raises [KeyError]. *)
Fixpoint dict_get (d : dict) (k : string) : option string :=
  match d with
  | [] => None
  | (k', v) :: d' => if String.eqb k k' then Some v else dict_get d' k
  end.

(** [d[k] = v]: a key that is present keeps its place. *)
Fixpoint dict_set (d : dict) (k v : string) : dict :=
  match d with
  | [] => [(k, v)]
  | (k', v') :: d' =>
      if String.eqb k k' then (k, v) :: d' else (k', v') :: dict_set d' k v
  end.

(** A dict display: the items are stored from left to right. *)
Definition dict_of (items : list (string * string)) : dict :=
  fold_left (fun d kv => dict_set d (fst kv) (snd kv)) items [].

Definition supported_languages : dict :=
  dict_of
    [("ar", "Arabic"); ("pt", "Brazilian Portuguese"); ("zh-cn", "Chinese");
     ("cs", "Czech"); ("nl", "Dutch"); ("en", "English"); ("fr", "French");
     ("de", "German"); ("it", "Italian"); ("pl", "Polish"); ("ru", "Russian");
     ("es", "Spanish"); ("tr", "Turkish"); ("ja", "Japanese");
     ("ko", "Korean"); ("hu", "Hungarian"); ("hi", "Hindi")]%string.

(** The comprehension that maps each name to its code, over the items of a
    dict. *)
Definition reverse_dict (d : dict) : dict :=
  fold_left (fun r kv => dict_set r (snd kv) (fst kv)) d [].

Definition reversed_supported_languages : dict :=
  reverse_dict supported_languages.

(** [list_languages] *)
Definition list_languages (self : TTSWrapper) : dict :=
  reversed_supported_languages.

(** *** The folders *)

Definition set_speaker_folder_attr (folder : string) (self : TTSWrapper)
  : TTSWrapper :=
  {| cuda := cuda self; device := device self; lowvram := lowvram self;
     latents_cache := latents_cache self; model_source := model_source self;
     speaker_folder := folder;
     output_folder := output_folder self;
     model_device := model_device self; calls := calls self |}.

Definition set_output_folder_attr (folder : string) (self : TTSWrapper)
  : TTSWrapper :=
  {| cuda := cuda self; device := device self; lowvram := lowvram self;
     latents_cache := latents_cache self; model_source := model_source self;
     speaker_folder := speaker_folder self;
     output_folder := folder;
     model_device := model_device self; calls := calls self |}.

(** The part of [os] that the folder methods use, over a disk that
    [os.makedirs] changes. [os.makedirs] may raise, and may have created some
    parents before it does. *)
Record Os (disk : Type) : Type := {
  os_path_exists : disk -> string -> bool;
  os_path_isdir : disk -> string -> bool;
  os_path_normpath : string -> string;
  os_path_abspath : string -> string;
  os_makedirs : disk -> string -> disk * result unit
}.
Arguments os_path_exists {disk} _ _ _.
Arguments os_path_isdir {disk} _ _ _.
Arguments os_path_normpath {disk} _ _.
Arguments os_path_abspath {disk} _ _.
Arguments os_makedirs {disk} _ _ _.

Section Folders.

Context {disk : Type}.
Variable os : Os disk.

(** [create_directories]: the loop over the two folders. *)
Fixpoint create_directories_loop (directories : list string) (d : disk)
  : disk * result unit :=
  match directories with
  | [] => (d, Ok tt)
  | sanctuary :: rest =>
      let absolute_path :=
        os_path_abspath os (os_path_normpath os sanctuary) in
      if negb (os_path_exists os d absolute_path) then
        match os_makedirs os d absolute_path with
        | (d', Ok _) => create_directories_loop rest d'
        | (d', Raise e) => (d', Raise e)
        end
      else create_directories_loop rest d
  end.

Definition create_directories (self : TTSWrapper) (d : disk)
  : disk * result unit :=
  create_directories_loop [output_folder self; speaker_folder self] d.

(** [set_speaker_folder] *)
Definition set_speaker_folder (folder : string) (self : TTSWrapper) (d : disk)
  : TTSWrapper * disk * result unit :=
  if os_path_exists os d folder && os_path_isdir os d folder then
    let self' := set_speaker_folder_attr folder self in
    let (d', r) := create_directories self' d in
    (self', d', r)
  else (self, d, Raise (ValueError "Provided path is not a valid directory")).

(** [set_out_folder] *)
Definition set_out_folder (folder : string) (self : TTSWrapper) (d : disk)
  : TTSWrapper * disk * result unit :=
  if os_path_exists os d folder && os_path_isdir os d folder then
    let self' := set_output_folder_attr folder self in
    let (d', r) := create_directories self' d in
    (self', d', r)
  else (self, d, Raise (ValueError "Provided path is not a valid directory")).

End Folders.

(** A disk for running the folder methods: the list of the directories that
    exist, with [os.makedirs] adding one and paths taken as they are. *)
Module DemoDisk.

Definition os : Os (list string) :=
  {| os_path_exists := fun d p => existsb (String.eqb p) d;
     os_path_isdir := fun d p => existsb (String.eqb p) d;
     os_path_normpath := fun p => p;
     os_path_abspath := fun p => p;
     os_makedirs := fun d p => (p :: d, Ok tt) |}.

End DemoDisk.

(** ** Vocabulary of the statements *)

(** The spec's error kind SpeakerNotFound is the [ValueError] that
    [get_speaker_wav] raises. *)
Definition SpeakerNotFound (r : result speaker_wav) : Prop :=
  exists msg, r = Raise (ValueError msg).

(** The state that [switch_model_device] leaves when the calls it makes
    return. *)
Definition switched (w : World) (self : TTSWrapper) : TTSWrapper :=
  if switch_enabled w self then
    let d := if String.eqb (device self) (cuda self)
             then "cpu"%string else cuda self in
    let self' := record (ModelTo d) (set_model_device d (set_device d self)) in
    if String.eqb d "cpu" then record EmptyCache self' else self'
  else self.

(** The fields that decide and record the placement. *)
Definition placement (self : TTSWrapper) : string * string * bool * string :=
  (cuda self, device self, lowvram self, model_device self).

(** A relocation of the model is a [ModelTo] event. *)
Definition is_relocation (e : event) : bool :=
  match e with ModelTo _ => true | _ => false end.

(** The relocations among the calls made so far. *)
Definition relocations (self : TTSWrapper) : list event :=
  List.filter is_relocation (calls self).

(** The device that an active transition assigns to [self.device]: host
    memory when the field names the target, the target otherwise. *)
Definition toggle_target (self : TTSWrapper) : string :=
  if String.eqb (device self) (cuda self) then "cpu"%string else cuda self.

(** The calls that a transition makes, and the calls of the object that are
    none of them: those of the generation. *)
Definition is_transition (e : event) : bool :=
  match e with ModelTo _ | EmptyCache => true | _ => false end.

Definition generation_calls (self : TTSWrapper) : list event :=
  List.filter (fun e => negb (is_transition e)) (calls self).

(** What a method may do to the cache: nothing, or one new entry under
    [key], which holds what the model extracted from [wav]. *)
Definition cache_step (w : World) (key : string) (wav : speaker_wav)
           (self self' : TTSWrapper) : Prop :=
  latents_cache self' = latents_cache self
  \/ (latents_cache self !! key = None
      /\ exists v : latents,
           get_conditioning_latents w (model_device self) (extractions self)
             wav = Ok v
           /\ latents_cache self' = <[key := v]> (latents_cache self)).

(** The characters that the first substitution removes. *)
Definition is_stripped (c : N) : bool :=
  Re.cmatch (Re.OneOf [ASTERISK; CR; LF]) c.

(** The text without them. *)
Definition strip (s : list N) : list N :=
  List.filter (fun c => negb (is_stripped c)) s.

(** What the second substitution keeps of a quoted span: the span less one
    leading and one trailing space, if it has them. [trim_end] drops the
    trailing one. *)
Fixpoint trim_end (s : list N) : list N :=
  match s with
  | [] => []
  | c :: s' =>
      match s' with
      | [] => if Re.is_space c then [] else [c]
      | _ :: _ => c :: trim_end s'
      end
  end.

(** The span less one leading and one trailing space. *)
Definition trim (s : list N) : list N :=
  match s with
  | [] => []
  | c :: s' => if Re.is_space c then trim_end s' else trim_end s
  end.

(** The part of [re_quoted] after its group. *)
Definition quoted_tail : Re.regex :=
  [Re.Opt Re.Space; Re.One (Re.Chr DQUOTE)].

(** A match takes its group and its remainder from the input. *)
Definition within (s g : list N) (m : list N * list N) : Prop :=
  (forall c, In c (fst m) -> In c g \/ In c s)
  /\ (forall c, In c (snd m) -> In c s).

(** What the registry makes of one entry [f] of the speaker folder: a
    multi-sample speaker when [f] is a directory that lists at least one
    audio file, a single-sample speaker when [f] is no directory and ends
    with the audio extension. *)
Definition listed_from (w : World) (folder f : string) (sp : speaker) : Prop :=
  (isdir w (OsPath.join folder [f]) = true
   /\ exists (first : string) (others : list string),
        get_wav_files w (OsPath.join folder [f]) = Ok (first :: others)
        /\ sp = {| speaker_name := f;
                   speaker_wavs :=
                     WavList (map (fun s => OsPath.join folder [f; s])
                                (first :: others));
                   preview := OsPath.join f [first] |})
  \/ (isdir w (OsPath.join folder [f]) = false
      /\ PyStr.endswith f ".wav" = true
      /\ sp = {| speaker_name := fst (OsPath.splitext f);
                 speaker_wavs := WavPath (OsPath.join folder [f]);
                 preview := f |}).

(** The speakers of a listing, entry by entry and in its order. *)
Inductive registry (w : World) (folder : string)
  : list string -> list speaker -> Prop :=
| registry_nil : registry w folder [] []
| registry_keep (f : string) (entries : list string) (sp : speaker)
                (speakers : list speaker) :
    listed_from w folder f sp ->
    registry w folder entries speakers ->
    registry w folder (f :: entries) (sp :: speakers)
| registry_skip (f : string) (entries : list string)
                (speakers : list speaker) :
    (forall sp, ~ listed_from w folder f sp) ->
    registry w folder entries speakers ->
    registry w folder (f :: entries) speakers.

(** The replacement of the second substitution: the group between single
    quotes. *)
Definition requote (g : list N) : list N := [SQUOTE] ++ g ++ [SQUOTE].

(** The number of double quotes of a text. *)
Definition quotes (s : list N) : nat := count_occ N.eq_dec s DQUOTE.

(** * Properties *)

Import PyStr OsPath.

Ltac run :=
  unfold try_except_reraise, bind, get, modify, ret, raise, lift in *.

(** ** Speaker resolution *)

Lemma load_name_unbound (v : string) :
  load_name [("speaker_name_or_path"%string, v)] "spekaer_name_or_path"
  = Raise (NameError "spekaer_name_or_path").
Proof. reflexivity. Qed.

(** C6: an identifier that ends with the audio extension and is an absolute
    path is not returned unchanged: the absolute-path test reads the unbound
    name [spekaer_name_or_path], and resolution raises [NameError] in every
    world and every state. *)
Theorem get_speaker_wav_absolute_wav_path_raises :
  forall (w : World) (self : TTSWrapper),
    endswith "/voices/dave/d1.wav" ".wav" = true /\
    isabs "/voices/dave/d1.wav" = true /\
    get_speaker_wav w self "/voices/dave/d1.wav"
    = Raise (NameError "spekaer_name_or_path").
Proof. intros w self. repeat split; reflexivity. Qed.

Lemma get_speaker_wav_audio_suffix (w : World) (self : TTSWrapper)
      (s : string) :
  endswith s ".wav" = true ->
  get_speaker_wav w self s = Raise (NameError "spekaer_name_or_path").
Proof.
  intros Hs. unfold get_speaker_wav. rewrite Hs.
  now rewrite load_name_unbound.
Qed.

(** C10: for every identifier ending in the audio extension, relative ones
    included, resolution does not return the joined path: it raises
    [NameError] before any path is built. *)
Theorem get_speaker_wav_wav_suffix_raises :
  forall (w : World) (self : TTSWrapper) (speaker_name_or_path : string),
    endswith speaker_name_or_path ".wav" = true ->
    get_speaker_wav w self speaker_name_or_path
    = Raise (NameError "spekaer_name_or_path").
Proof. intros w self s. apply get_speaker_wav_audio_suffix. Qed.

Lemma get_speaker_wav_wav_suffix_raises_witness :
  isabs "alice.wav" = false /\
  get_speaker_wav (Demo.world true) (Demo.init true true "local" "cuda")
    "alice.wav"
  = Raise (NameError "spekaer_name_or_path").
Proof.
  split; [reflexivity |].
  apply (get_speaker_wav_wav_suffix_raises (Demo.world true)
           (Demo.init true true "local" "cuda") "alice.wav").
  reflexivity.
Defined.

Lemma length_map_eqb_0 {A B} (f : A -> B) (l : list A) :
  (length (map f l) =? 0) = match l with [] => true | _ => false end.
Proof. destruct l; reflexivity. Qed.

(** What [get_speaker_wav] does with an identifier that is a speaker name. *)
Lemma get_speaker_wav_name (w : World) (self : TTSWrapper) (s : string) :
  endswith s ".wav" = false ->
  get_speaker_wav w self s =
  let full_path := join (speaker_folder self) [s] in
  if isdir w full_path then
    match get_wav_files w full_path with
    | Raise e => Raise e
    | Ok [] => Raise (ValueError ("no wav files found in " +:+ full_path))
    | Ok names => Ok (WavList (map (fun wav => join full_path [wav]) names))
    end
  else if isfile w (full_path +:+ ".wav")
       then Ok (WavPath (full_path +:+ ".wav"))
       else Raise (ValueError ("Speaker " +:+ s +:+ " not found.")).
Proof.
  intros Hs. unfold get_speaker_wav. rewrite Hs. cbv zeta.
  destruct (isdir w _); [| reflexivity].
  destruct (get_wav_files w _) as [names | e]; cbn [bind_result];
    [| reflexivity].
  rewrite length_map_eqb_0. destruct names; reflexivity.
Qed.

(** C7 (amended): for an identifier not ending in the audio extension,
    resolution raises SpeakerNotFound exactly when the matching path is a
    directory without audio files, or is not a directory and no matching
    single audio file exists; the directory is tested first, so an audio-less
    directory raises even next to a matching file. When the identifier names
    a directory with audio files, the result is the paths of all its audio
    files in listing order. *)
Theorem get_speaker_wav_name_resolution :
  forall (w : World) (self : TTSWrapper) (s : string),
    endswith s ".wav" = false ->
    (SpeakerNotFound (get_speaker_wav w self s) <->
       (isdir w (join (speaker_folder self) [s]) = true /\
        get_wav_files w (join (speaker_folder self) [s]) = Ok [])
       \/
       (isdir w (join (speaker_folder self) [s]) = false /\
        isfile w (join (speaker_folder self) [s] +:+ ".wav") = false))
    /\
    (forall entries : list string,
       isdir w (join (speaker_folder self) [s]) = true ->
       listdir w (join (speaker_folder self) [s]) = Some entries ->
       List.filter (fun f => endswith f ".wav") entries <> [] ->
       get_speaker_wav w self s =
       Ok (WavList
             (map (fun f => join (join (speaker_folder self) [s]) [f])
                (List.filter (fun f => endswith f ".wav") entries)))).
Proof.
  intros w self s Hs. rewrite (get_speaker_wav_name w self s Hs). cbv zeta.
  set (full_path := join (speaker_folder self) [s]).
  unfold SpeakerNotFound. split.
  - destruct (isdir w full_path) eqn:Hd.
    + destruct (get_wav_files w full_path) as [[| n names] | e] eqn:Hg.
      * split; [intros _; left; auto | intros _; eauto].
      * split; [intros [msg H]; discriminate |].
        intros [[_ H] | [H _]]; discriminate.
      * split.
        -- intros [msg H]. unfold get_wav_files in Hg.
           destruct (listdir w full_path); [discriminate |].
           injection Hg as <-. discriminate.
        -- intros [[_ H] | [H _]]; discriminate.
    + destruct (isfile w (full_path +:+ ".wav")) eqn:Hf.
      * split; [intros [msg H]; discriminate |].
        intros [[H _] | [_ H]]; discriminate.
      * split; [intros _; right; auto | intros _; eauto].
  - intros entries Hd Hl Hne. rewrite Hd. unfold get_wav_files. rewrite Hl.
    destruct (List.filter _ entries); [contradiction | reflexivity].
Qed.

Lemma get_speaker_wav_name_resolution_witness :
  get_speaker_wav (Demo.world true) (Demo.init true true "local" "cuda") "bob"
  = Ok (WavList ["/speakers/bob/b1.wav"; "/speakers/bob/b2.wav"]%string).
Proof.
  apply (proj2 (get_speaker_wav_name_resolution (Demo.world true)
                  (Demo.init true true "local" "cuda") "bob" eq_refl)
           ["b1.wav"; "readme.txt"; "b2.wav"]%string).
  - reflexivity.
  - reflexivity.
  - discriminate.
Defined.

(** C7 as stated fails: /speakers/carol is a directory without audio files
    and /speakers/carol.wav exists, so a matching single audio file exists,
    yet resolving the name carol raises. *)
Lemma get_speaker_wav_audioless_dir_hides_file :
  ~ (SpeakerNotFound
       (get_speaker_wav (Demo.world true)
          (Demo.init true true "local" "cuda") "carol")
     <->
     (isfile (Demo.world true) "/speakers/carol.wav" = false /\
      ~ (isdir (Demo.world true) "/speakers/carol" = true /\
         exists names,
           get_wav_files (Demo.world true) "/speakers/carol" = Ok names /\
           names <> []))).
Proof.
  intros [H _].
  assert (Hraise : SpeakerNotFound
                     (get_speaker_wav (Demo.world true)
                        (Demo.init true true "local" "cuda") "carol")).
  { eexists. vm_compute. reflexivity. }
  destruct (H Hraise) as [Hfile _]. vm_compute in Hfile. discriminate.
Qed.

(** ** Device placement *)

(** [switch_model_device], outcome by outcome. *)
Lemma switch_model_device_run (w : World) (self : TTSWrapper) :
  switch_model_device w self =
  if switch_enabled w self then
    match model_to w (calls self) (model_device self) (toggle_target self) with
    | Raise e =>
        (record (ModelTo (toggle_target self))
           (set_device (toggle_target self) self), Raise e)
    | Ok _ =>
        if String.eqb (toggle_target self) "cpu"
        then (switched w self,
              cuda_empty_cache w (ModelTo (toggle_target self) :: calls self))
        else (switched w self, Ok tt)
    end
  else (self, Ok tt).
Proof.
  unfold switch_model_device, switched, toggle_target. run.
  destruct (switch_enabled w self); [| reflexivity].
  destruct (String.eqb (device self) (cuda self)); cbn.
  - destruct (model_to w (calls self) (model_device self) "cpu") as [[] | e];
      reflexivity.
  - destruct (model_to w (calls self) (model_device self) (cuda self))
      as [[] | e]; cbn; [| reflexivity].
    destruct (String.eqb (cuda self) "cpu"); reflexivity.
Qed.

Lemma switch_enabled_spec (w : World) (self : TTSWrapper) :
  switch_enabled w self = true <->
  lowvram self = true /\ cuda_is_available w = true /\ cuda self <> "cpu"%string.
Proof.
  unfold switch_enabled. rewrite !andb_true_iff, negb_true_iff.
  rewrite String.eqb_neq. tauto.
Qed.

Lemma switched_disabled (w : World) (self : TTSWrapper) :
  switch_enabled w self = false -> switched w self = self.
Proof. intros H. unfold switched. now rewrite H. Qed.

Lemma switch_model_device_disabled (w : World) (self : TTSWrapper) :
  switch_enabled w self = false -> switch_model_device w self = (self, Ok tt).
Proof. intros H. now rewrite switch_model_device_run, H. Qed.

(** A transition that returns leaves the state [switched]. *)
Lemma switch_model_device_ok (w : World) (self s1 : TTSWrapper) (u : unit) :
  switch_model_device w self = (s1, Ok u) -> s1 = switched w self.
Proof.
  rewrite switch_model_device_run.
  destruct (switch_enabled w self) eqn:He.
  - destruct (model_to w _ _ _) as [[] | e]; [| discriminate].
    destruct (String.eqb (toggle_target self) "cpu"); now intros [= <- _].
  - intros [= <- _]. now rewrite switched_disabled.
Qed.

Lemma switch_model_device_returns (w : World) (self : TTSWrapper) :
  snd (switch_model_device w self) = Ok tt ->
  switch_model_device w self = (switched w self, Ok tt).
Proof.
  destruct (switch_model_device w self) as [s1 r] eqn:Hs. cbn. intros ->.
  now rewrite (switch_model_device_ok w self s1 tt Hs).
Qed.

Lemma switched_device (w : World) (self : TTSWrapper) :
  switch_enabled w self = true ->
  device (switched w self) =
  (if String.eqb (device self) (cuda self) then "cpu"%string else cuda self)
  /\ model_device (switched w self) = device (switched w self)
  /\ cuda (switched w self) = cuda self
  /\ lowvram (switched w self) = lowvram self
  /\ latents_cache (switched w self) = latents_cache self
  /\ model_source (switched w self) = model_source self.
Proof.
  intros H. unfold switched. rewrite H. cbv zeta.
  destruct (String.eqb (if String.eqb (device self) (cuda self)
                        then "cpu"%string else cuda self) "cpu");
    cbn; auto 10.
Qed.

Lemma switch_enabled_switched (w : World) (self : TTSWrapper) :
  switch_enabled w (switched w self) = switch_enabled w self.
Proof.
  destruct (switch_enabled w self) eqn:H.
  - destruct (switched_device w self H) as (_ & _ & Hc & Hl & _).
    unfold switch_enabled in *. now rewrite Hc, Hl.
  - now rewrite switched_disabled.
Qed.

Lemma switched_calls (w : World) (self : TTSWrapper) (e : event) :
  In e (calls self) -> In e (calls (switched w self)).
Proof.
  intros H. unfold switched. destruct (switch_enabled w self); [| exact H].
  cbv zeta. destruct (String.eqb _ "cpu"); cbn; auto.
Qed.

Lemma switched_output_folder (w : World) (self : TTSWrapper) :
  output_folder (switched w self) = output_folder self.
Proof.
  unfold switched. destruct (switch_enabled w self); [| reflexivity].
  cbv zeta. destruct (String.eqb _ "cpu"); reflexivity.
Qed.

Lemma switched_latents_cache (w : World) (self : TTSWrapper) :
  latents_cache (switched w self) = latents_cache self.
Proof.
  unfold switched. destruct (switch_enabled w self); [| reflexivity].
  cbv zeta. destruct (String.eqb _ "cpu"); reflexivity.
Qed.

Lemma switched_model_source (w : World) (self : TTSWrapper) :
  model_source (switched w self) = model_source self.
Proof.
  unfold switched. destruct (switch_enabled w self); [| reflexivity].
  cbv zeta. destruct (String.eqb _ "cpu"); reflexivity.
Qed.

Lemma extractions_record (e : event) (self : TTSWrapper) :
  extractions (record e self)
  = if is_extraction e then S (extractions self) else extractions self.
Proof. unfold extractions. cbn. now destruct (is_extraction e). Qed.

Lemma extractions_switched (w : World) (self : TTSWrapper) :
  extractions (switched w self) = extractions self.
Proof.
  unfold switched. destruct (switch_enabled w self); [| reflexivity].
  cbv zeta. destruct (String.eqb _ "cpu"); reflexivity.
Qed.

Lemma generation_calls_switched (w : World) (self : TTSWrapper) :
  generation_calls (switched w self) = generation_calls self.
Proof.
  unfold switched. destruct (switch_enabled w self); [| reflexivity].
  cbv zeta. destruct (String.eqb _ "cpu"); reflexivity.
Qed.

Lemma switched_relocations (w : World) (self : TTSWrapper) :
  switch_enabled w self = true ->
  relocations (switched w self)
  = ModelTo (device (switched w self)) :: relocations self.
Proof.
  intros H. unfold switched. rewrite H. cbv zeta.
  destruct (String.eqb _ "cpu"); reflexivity.
Qed.

(** What a transition leaves of the object, whether it returns or raises:
    the device field is the one a transition that returns would leave, the
    relocation is logged, and nothing else of the object changes but the
    place of the model. *)
Lemma switch_model_device_frame (w : World) (self s1 : TTSWrapper)
      (r : result unit) :
  switch_model_device w self = (s1, r) ->
  device s1 = device (switched w self)
  /\ cuda s1 = cuda self
  /\ lowvram s1 = lowvram self
  /\ latents_cache s1 = latents_cache self
  /\ model_source s1 = model_source self
  /\ output_folder s1 = output_folder self
  /\ extractions s1 = extractions self
  /\ generation_calls s1 = generation_calls self
  /\ relocations s1 = relocations (switched w self)
  /\ (forall e, In e (calls self) -> In e (calls s1)).
Proof.
  rewrite switch_model_device_run.
  destruct (switch_enabled w self) eqn:He.
  - destruct (model_to w _ _ _) as [[] | e].
    + intros Hs.
      assert (s1 = switched w self) as ->
        by (destruct (String.eqb (toggle_target self) "cpu");
            now injection Hs as <- _).
      destruct (switched_device w self He) as (_ & _ & Hc & Hl & Hla & Hm).
      repeat split; auto using switched_output_folder, extractions_switched,
        generation_calls_switched, switched_calls.
    + intros [= <- _]. unfold switched, toggle_target. rewrite He. cbv zeta.
      destruct (String.eqb (if String.eqb (device self) (cuda self)
                            then "cpu"%string else cuda self) "cpu");
        cbn; repeat split; auto.
  - intros [= <- _]. rewrite switched_disabled by assumption.
    repeat split; auto.
Qed.

(** The generation methods leave the placement alone and log no relocation. *)
Lemma get_or_create_latents_placement (w : World) name wav self self' r :
  get_or_create_latents w name wav self = (self', r) ->
  placement self' = placement self /\ relocations self' = relocations self
  /\ model_source self' = model_source self
  /\ output_folder self' = output_folder self.
Proof.
  unfold get_or_create_latents. run.
  destruct (latents_cache self !! name) as [v |] eqn:Hc; cbn.
  - rewrite Hc. intros [= <- <-]. auto.
  - destruct (get_conditioning_latents w _ _ wav) as [v | e]; cbn.
    + rewrite lookup_insert_eq. intros [= <- <-]. auto.
    + intros [= <- <-]. auto.
Qed.

Lemma local_generation_placement (w : World) text name wav lang out self self' r :
  local_generation w text name wav lang out self = (self', r) ->
  placement self' = placement self /\ relocations self' = relocations self
  /\ model_source self' = model_source self
  /\ output_folder self' = output_folder self.
Proof.
  unfold local_generation. run.
  destruct (get_or_create_latents w name wav self) as [s1 [l | e]] eqn:Hg;
    apply get_or_create_latents_placement in Hg;
    destruct Hg as (Hp & Hr & Hm & Ho).
  - destruct (inference w _ _ _ _ _) as [o | e]; cbn.
    + intros [= <- <-]. rewrite <- Hp, <- Hr, <- Hm, <- Ho. auto.
    + intros [= <- <-]. rewrite <- Hp, <- Hr, <- Hm, <- Ho. auto.
  - intros [= <- <-]. auto.
Qed.

Lemma api_generation_placement (w : World) text wav lang out self self' r :
  api_generation w text wav lang out self = (self', r) ->
  placement self' = placement self /\ relocations self' = relocations self
  /\ model_source self' = model_source self
  /\ output_folder self' = output_folder self.
Proof.
  unfold api_generation. run. intros [= <- <-]. auto.
Qed.

Lemma backend_dispatch_placement (w : World) text name wav lang out self self' r :
  backend_dispatch w text name wav lang out self = (self', r) ->
  placement self' = placement self /\ relocations self' = relocations self
  /\ model_source self' = model_source self
  /\ output_folder self' = output_folder self.
Proof.
  unfold backend_dispatch. run.
  destruct (String.eqb (model_source self) "local").
  - apply local_generation_placement.
  - apply api_generation_placement.
Qed.

(** [process_tts_to_file], step by step. *)
Lemma process_tts_to_file_run (w : World) text spk lang out self :
  process_tts_to_file w text spk lang out self =
  match get_speaker_wav w self spk with
  | Raise e => (self, Raise e)
  | Ok wav =>
      match switch_model_device w self with
      | (s1, Raise e) => (s1, Raise e)
      | (s1, Ok _) =>
          match backend_dispatch w (clean_text text) spk wav lang
                  (output_path self out) s1 with
          | (s2, Raise e) => (s2, Raise e)
          | (s2, Ok _) =>
              match switch_model_device w s2 with
              | (s3, Raise e) => (s3, Raise e)
              | (s3, Ok _) => (s3, Ok (output_path self out))
              end
          end
      end
  end.
Proof.
  unfold process_tts_to_file. run.
  destruct (get_speaker_wav w self spk) as [wav | e]; [| reflexivity].
  destruct (switch_model_device w self) as [s1 [u1 | e1]]; [| reflexivity].
  destruct (backend_dispatch w _ spk wav lang _ _) as [s2 [u | e]];
    [| reflexivity].
  destruct (switch_model_device w s2) as [s3 [u3 | e3]]; reflexivity.
Qed.

(** The same for a call whose first transition returns. *)
Lemma process_tts_to_file_run_switched (w : World) text spk lang out self wav :
  get_speaker_wav w self spk = Ok wav ->
  snd (switch_model_device w self) = Ok tt ->
  process_tts_to_file w text spk lang out self =
  match backend_dispatch w (clean_text text) spk wav lang
          (output_path self out) (switched w self) with
  | (s2, Raise e) => (s2, Raise e)
  | (s2, Ok _) =>
      (fst (switch_model_device w s2),
       match snd (switch_model_device w s2) with
       | Ok _ => Ok (output_path self out)
       | Raise e => Raise e
       end)
  end.
Proof.
  intros Hwav Hs. rewrite process_tts_to_file_run, Hwav.
  rewrite (switch_model_device_returns w self Hs).
  destruct (backend_dispatch w _ spk wav lang _ _) as [s2 [u | e]];
    [| reflexivity].
  now destruct (switch_model_device w s2) as [s3 [u3 | e3]].
Qed.

Lemma switch_enabled_congr (w : World) (a b : TTSWrapper) :
  placement a = placement b -> switch_enabled w a = switch_enabled w b.
Proof.
  unfold placement, switch_enabled. intros [= Hc Hd Hl Hm]. now rewrite Hc, Hl.
Qed.

Lemma switched_device_congr (w : World) (a b : TTSWrapper) :
  placement a = placement b ->
  device (switched w a) = device (switched w b)
  /\ model_device (switched w a) = model_device (switched w b).
Proof.
  intros Hp. pose proof (switch_enabled_congr w a b Hp) as He.
  destruct (switch_enabled w b) eqn:Hb.
  - destruct (switched_device w a He) as (Ha1 & Ha2 & _).
    destruct (switched_device w b Hb) as (Hb1 & Hb2 & _).
    unfold placement in Hp. injection Hp as Hc Hd Hl Hm.
    rewrite Ha2, Hb2, Ha1, Hb1, Hc, Hd. auto.
  - rewrite !switched_disabled by assumption.
    unfold placement in Hp. injection Hp as Hc Hd Hl Hm. auto.
Qed.

Lemma switched_changes_device (w : World) (self : TTSWrapper) :
  switch_enabled w self = true -> device (switched w self) <> device self.
Proof.
  intros H. destruct (switched_device w self H) as (Hd & _). rewrite Hd.
  apply switch_enabled_spec in H. destruct H as (_ & _ & Hne).
  destruct (String.eqb (device self) (cuda self)) eqn:E.
  - apply String.eqb_eq in E. congruence.
  - apply String.eqb_neq in E. congruence.
Qed.

Lemma switched_twice_device (w : World) (self : TTSWrapper) :
  switch_enabled w self = true ->
  device self = "cpu"%string \/ device self = cuda self ->
  device (switched w (switched w self)) = device self.
Proof.
  intros H Hdev.
  pose proof (switch_enabled_switched w self) as H2. rewrite H in H2.
  destruct (switched_device w _ H2) as (Hd2 & _ & _).
  destruct (switched_device w self H) as (Hd1 & _ & Hc & _).
  rewrite Hd2, Hc, Hd1.
  apply switch_enabled_spec in H. destruct H as (_ & _ & Hne).
  destruct (String.eqb (device self) (cuda self)) eqn:E.
  - apply String.eqb_eq in E.
    destruct (String.eqb "cpu" (cuda self)) eqn:E2.
    + apply String.eqb_eq in E2. congruence.
    + congruence.
  - rewrite String.eqb_refl. apply String.eqb_neq in E.
    destruct Hdev; congruence.
Qed.

(** C4: when low-memory mode is off, or no accelerator is available, or the
    target device is host memory, both transitions are no-ops and a synthesis
    call, whatever its outcome, leaves the device field and the model's
    placement as they were and relocates nothing. *)
Theorem process_tts_to_file_keeps_device_when_switch_disabled :
  forall (w : World) (self self' : TTSWrapper) (text : list N)
         (spk lang out : string) (r : result string),
    lowvram self = false \/ cuda_is_available w = false
    \/ cuda self = "cpu"%string ->
    process_tts_to_file w text spk lang out self = (self', r) ->
    switch_model_device w self = (self, Ok tt)
    /\ switch_model_device w self' = (self', Ok tt)
    /\ device self' = device self
    /\ model_device self' = model_device self
    /\ relocations self' = relocations self.
Proof.
  intros w self self' text spk lang out r Hoff Hrun.
  assert (Hdis : switch_enabled w self = false).
  { destruct (switch_enabled w self) eqn:E; [| reflexivity].
    apply switch_enabled_spec in E. destruct E as (Hl & Ha & Hc).
    destruct Hoff as [H | [H | H]]; congruence. }
  rewrite process_tts_to_file_run in Hrun.
  rewrite (switch_model_device_disabled w self Hdis) in Hrun |- *.
  destruct (get_speaker_wav w self spk) as [wav | e].
  - destruct (backend_dispatch w _ spk wav lang _ self) as [s2 [u | e]] eqn:Hb;
      apply backend_dispatch_placement in Hb; destruct Hb as (Hp & Hr & _);
      pose proof (switch_enabled_congr w _ _ Hp) as He; rewrite Hdis in He.
    + rewrite (switch_model_device_disabled w s2 He) in Hrun.
      injection Hrun as <- <-. rewrite (switch_model_device_disabled w s2 He).
      unfold placement in Hp. injection Hp as Hc Hd Hl Hm. auto.
    + injection Hrun as <- <-. rewrite (switch_model_device_disabled w s2 He).
      unfold placement in Hp. injection Hp as Hc Hd Hl Hm. auto.
  - injection Hrun as <- <-.
    rewrite (switch_model_device_disabled w self Hdis). auto.
Qed.

Lemma process_tts_to_file_keeps_device_when_switch_disabled_witness :
  device (fst (process_tts_to_file (Demo.world false) (str "hi") "alice" "en"
                 "out.wav" (Demo.init true false "local" "cuda")))
  = "cpu"%string.
Proof.
  destruct (process_tts_to_file (Demo.world false) (str "hi") "alice" "en"
              "out.wav" (Demo.init true false "local" "cuda"))
    as [self' r] eqn:Hrun.
  destruct (process_tts_to_file_keeps_device_when_switch_disabled
              (Demo.world false) (Demo.init true false "local" "cuda") self'
              (str "hi") "alice" "en" "out.wav" r
              (or_intror (or_introl eq_refl)) Hrun)
    as (_ & _ & Hd & _).
  exact Hd.
Defined.

Lemma toggle_target_twice (dev target : string) :
  target <> "cpu"%string ->
  dev = "cpu"%string \/ dev = target ->
  (if String.eqb (if String.eqb dev target then "cpu"%string else target)
        target
   then "cpu"%string else target) = dev.
Proof.
  intros Hne Hdev. destruct (String.eqb dev target) eqn:E.
  - apply String.eqb_eq in E.
    destruct (String.eqb "cpu" target) eqn:E2.
    + apply String.eqb_eq in E2. congruence.
    + congruence.
  - rewrite String.eqb_refl. apply String.eqb_neq in E.
    destruct Hdev; congruence.
Qed.

(** C5 (amended): a transition is a no-op exactly when the scheduler is
    inactive. When it is active the transition toggles the device field, to
    host memory when the field names the target and to the target otherwise,
    so the field always changes, and then asks the model to move to the new
    device. The field is assigned first: it has the new value whether the
    move returns or raises; the model is on the new device when the
    transition returns, and stays where it was when the move raises. A second
    transition toggles again, which restores the field of a model that
    started on host memory or on the target, instead of keeping the placement
    that the first one reached. *)
Theorem switch_model_device_toggles :
  forall (w : World) (self s1 : TTSWrapper) (r : result unit),
    switch_model_device w self = (s1, r) ->
    (lowvram self = false \/ cuda_is_available w = false
     \/ cuda self = "cpu"%string ->
     s1 = self /\ r = Ok tt)
    /\
    (lowvram self = true -> cuda_is_available w = true ->
     cuda self <> "cpu"%string ->
     device s1
     = (if String.eqb (device self) (cuda self)
        then "cpu"%string else cuda self)
     /\ device s1 <> device self
     /\ relocations s1 = ModelTo (device s1) :: relocations self
     /\ (r = Ok tt -> model_device s1 = device s1)
     /\ (forall e : exn,
           model_to w (calls self) (model_device self) (device s1) = Raise e ->
           r = Raise e /\ model_device s1 = model_device self)
     /\ (forall (s2 : TTSWrapper) (r2 : result unit),
           switch_model_device w s1 = (s2, r2) ->
           device self = "cpu"%string \/ device self = cuda self ->
           device s2 = device self /\ device s2 <> device s1)).
Proof.
  intros w self s1 r Hs. split.
  - intros Hcase.
    assert (Hoff : switch_enabled w self = false).
    { destruct (switch_enabled w self) eqn:E; [| reflexivity].
      apply switch_enabled_spec in E. destruct E as (Hl & Ha & Hc).
      destruct Hcase as [H | [H | H]]; congruence. }
    rewrite (switch_model_device_disabled w self Hoff) in Hs.
    now injection Hs as <- <-.
  - intros Hlow Hacc Htarget.
    assert (Hon : switch_enabled w self = true)
      by (apply switch_enabled_spec; auto).
    pose proof (switch_model_device_frame w self s1 r Hs)
      as (Hd & Hc & Hl & _ & _ & _ & _ & _ & Hr & _).
    destruct (switched_device w self Hon) as (Hd1 & Hm1 & _).
    assert (Hdev1 : device s1
                    = (if String.eqb (device self) (cuda self)
                       then "cpu"%string else cuda self)) by congruence.
    split; [exact Hdev1 |]. split; [| split; [| split; [| split]]].
    + rewrite Hd. now apply switched_changes_device.
    + rewrite Hr, Hd. now apply switched_relocations.
    + intros ->. apply switch_model_device_ok in Hs. subst s1. exact Hm1.
    + intros e He. rewrite switch_model_device_run, Hon in Hs.
      unfold toggle_target in Hs. rewrite <- Hdev1, He in Hs.
      now injection Hs as <- <-.
    + intros s2 r2 Hs2 Hstart.
      pose proof (switch_model_device_frame w s1 s2 r2 Hs2) as (Hd2 & _).
      assert (Hon1 : switch_enabled w s1 = true)
        by (unfold switch_enabled in *; now rewrite Hc, Hl).
      destruct (switched_device w s1 Hon1) as (Hd3 & _).
      apply switch_enabled_spec in Hon. destruct Hon as (_ & _ & Hne).
      assert (Hback : device s2 = device self).
      { rewrite Hd2, Hd3, Hc, Hdev1.
        now apply toggle_target_twice. }
      split; [exact Hback |]. rewrite Hback, Hdev1.
      destruct (String.eqb (device self) (cuda self)) eqn:E.
      * apply String.eqb_eq in E. congruence.
      * apply String.eqb_neq in E. congruence.
Qed.

Lemma switch_model_device_toggles_witness :
  device (fst (switch_model_device (Demo.world true)
                 (Demo.init true true "local" "cuda")))
  = "cuda"%string
  /\ device (fst (switch_model_device (Demo.world true)
                    (fst (switch_model_device (Demo.world true)
                            (Demo.init true true "local" "cuda")))))
     = "cpu"%string.
Proof.
  set (x1 := switch_model_device (Demo.world true)
               (Demo.init true true "local" "cuda")).
  set (x2 := switch_model_device (Demo.world true) (fst x1)).
  assert (Htarget : cuda (Demo.init true true "local" "cuda")
                    <> "cpu"%string) by discriminate.
  destruct (proj2 (switch_model_device_toggles (Demo.world true)
                     (Demo.init true true "local" "cuda") (fst x1) (snd x1)
                     (surjective_pairing x1)) eq_refl eq_refl Htarget)
    as (Hd & _ & _ & _ & _ & Htwice).
  split.
  - exact Hd.
  - exact (proj1 (Htwice (fst x2) (snd x2) (surjective_pairing x2)
                    (or_introl eq_refl))).
Defined.

(** C5 as stated fails: in low-memory mode with an accelerator, starting on
    host memory, the second transition does not keep the placement that the
    first one reached. *)
Lemma switch_model_device_not_idempotent :
  ~ (device (fst (switch_model_device (Demo.world true)
                    (fst (switch_model_device (Demo.world true)
                            (Demo.init true true "local" "cuda")))))
     = device (fst (switch_model_device (Demo.world true)
                      (Demo.init true true "local" "cuda")))).
Proof. vm_compute. discriminate. Qed.

(** ** The synthesis call *)

(** C1 (amended): once the pre-call transition has returned and the backend
    dispatch is reached, a dispatch that raises makes the call raise the same
    error without the post-call transition: the call ends in the state the
    dispatch left, with the device and the model where the pre-call
    transition put them and no further relocation, so in low-memory mode with
    an accelerator a model that started on host memory stays on the
    accelerator. When the dispatch succeeds, the post-call transition is
    performed, the call returns the output path if that transition returns
    and raises its error otherwise, and the device field of a model that
    started on host memory or on the target is restored. *)
Theorem process_tts_to_file_dispatch_outcome :
  forall (w : World) (self s2 : TTSWrapper) (text : list N)
         (spk lang out : string) (wav : speaker_wav) (r : result unit),
    get_speaker_wav w self spk = Ok wav ->
    snd (switch_model_device w self) = Ok tt ->
    backend_dispatch w (clean_text text) spk wav lang (output_path self out)
      (fst (switch_model_device w self)) = (s2, r) ->
    match r with
    | Raise e =>
        process_tts_to_file w text spk lang out self = (s2, Raise e)
        /\ device s2 = device (fst (switch_model_device w self))
        /\ model_device s2 = model_device (fst (switch_model_device w self))
        /\ relocations s2 = relocations (fst (switch_model_device w self))
        /\ (switch_enabled w self = true -> device self = "cpu"%string ->
            device s2 = cuda self /\ model_device s2 = cuda self
            /\ device s2 <> device self)
    | Ok _ =>
        process_tts_to_file w text spk lang out self
        = (fst (switch_model_device w s2),
           match snd (switch_model_device w s2) with
           | Ok _ => Ok (output_path self out)
           | Raise e => Raise e
           end)
        /\ (switch_enabled w self = true ->
            relocations (fst (switch_model_device w s2))
            = ModelTo (device (fst (switch_model_device w s2)))
              :: relocations s2)
        /\ (device self = "cpu"%string \/ device self = cuda self ->
            device (fst (switch_model_device w s2)) = device self
            /\ (snd (switch_model_device w s2) = Ok tt ->
                model_device self = device self ->
                model_device (fst (switch_model_device w s2)) = device self))
    end.
Proof.
  intros w self s2 text spk lang out wav r Hwav Hpre Hb.
  rewrite (process_tts_to_file_run_switched w text spk lang out self wav
             Hwav Hpre).
  rewrite (switch_model_device_returns w self Hpre) in *. cbn [fst] in *.
  rewrite Hb. apply backend_dispatch_placement in Hb.
  destruct Hb as (Hp & Hr & _).
  destruct r as [u | e].
  - split; [reflexivity |].
    destruct (switch_model_device w s2) as [s3 r3] eqn:Hs3. cbn [fst].
    pose proof (switch_model_device_frame w s2 s3 r3 Hs3)
      as (Hd3 & _ & _ & _ & _ & _ & _ & _ & Hr3 & _).
    destruct (switched_device_congr w _ _ Hp) as (Hd & _).
    split.
    + intros Hon.
      assert (Hon2 : switch_enabled w s2 = true).
      { rewrite (switch_enabled_congr w _ _ Hp).
        now rewrite switch_enabled_switched. }
      rewrite Hr3, Hd3. now apply switched_relocations.
    + intros Hdev.
      assert (Hback : device s3 = device self).
      { rewrite Hd3, Hd.
        destruct (switch_enabled w self) eqn:He.
        - now apply switched_twice_device.
        - now rewrite !switched_disabled
            by (rewrite ?switched_disabled; assumption). }
      split; [exact Hback |]. cbn [snd]. intros -> Hinv.
      apply switch_model_device_ok in Hs3. subst s3.
      pose proof (switch_enabled_congr w _ _ Hp) as He2.
      rewrite switch_enabled_switched in He2.
      unfold placement in Hp. injection Hp as _ _ _ Hm.
      destruct (switch_enabled w self) eqn:He.
      * destruct (switched_device w s2 He2) as (_ & Hm2 & _). congruence.
      * rewrite (switched_disabled w s2 He2), Hm.
        rewrite (switched_disabled w self He). exact Hinv.
  - unfold placement in Hp. injection Hp as Hc Hd Hl Hm.
    split; [reflexivity |]. split; [exact Hd |]. split; [exact Hm |].
    split; [exact Hr |]. intros Hon Hcpu.
    destruct (switched_device w self Hon) as (Hd1 & Hm1 & _).
    assert (Hto : device (switched w self) = cuda self).
    { rewrite Hd1, Hcpu.
      apply switch_enabled_spec in Hon. destruct Hon as (_ & _ & Hne).
      destruct (String.eqb "cpu" (cuda self)) eqn:E; [| reflexivity].
      apply String.eqb_eq in E. congruence. }
    split; [congruence |]. split; [congruence |].
    rewrite Hd. now apply switched_changes_device.
Qed.

Lemma process_tts_to_file_dispatch_outcome_witness :
  process_tts_to_file (Demo.world true) (str "hi") "alice" "en" "out.wav"
    (Demo.init true true "local" "cuda")
  = (fst (process_tts_to_file (Demo.world true) (str "hi") "alice" "en"
            "out.wav" (Demo.init true true "local" "cuda")),
     Ok "/out/out.wav"%string)
  /\ device (fst (process_tts_to_file (Demo.world true) (str "hi") "alice"
                    "en" "out.wav" (Demo.init true true "local" "cuda")))
     = "cpu"%string.
Proof.
  destruct (backend_dispatch (Demo.world true) (clean_text (str "hi")) "alice"
              (WavPath "/speakers/alice.wav") "en"
              (output_path (Demo.init true true "local" "cuda") "out.wav")
              (fst (switch_model_device (Demo.world true)
                      (Demo.init true true "local" "cuda"))))
    as [s2 r] eqn:Hb.
  pose proof (process_tts_to_file_dispatch_outcome (Demo.world true)
                (Demo.init true true "local" "cuda") s2 (str "hi") "alice"
                "en" "out.wav" (WavPath "/speakers/alice.wav") r
                eq_refl eq_refl Hb) as H.
  vm_compute in Hb. injection Hb as <- <-.
  destruct H as (H1 & _ & H2). split.
  - vm_compute. reflexivity.
  - rewrite H1. cbn [fst]. exact (proj1 (H2 (or_introl eq_refl))).
Defined.

(** C1 as stated fails: low-memory mode, an accelerator, the model on host
    memory, and a local backend whose inference raises. The call fails and
    leaves the device and the model on the accelerator. *)
Lemma process_tts_to_file_failure_leaves_model_on_accelerator :
  ~ (forall e : exn,
       snd (process_tts_to_file (Demo.failing_world true) (str "hi") "alice"
              "en" "out.wav" (Demo.init true true "local" "cuda"))
       = Raise e ->
       device (fst (process_tts_to_file (Demo.failing_world true) (str "hi")
                      "alice" "en" "out.wav"
                      (Demo.init true true "local" "cuda")))
       = device (Demo.init true true "local" "cuda")).
Proof.
  intros H. specialize (H (BackendError 1) eq_refl).
  vm_compute in H. discriminate.
Qed.

Lemma backend_dispatch_writes (w : World) text name wav lang out self s2 u :
  backend_dispatch w text name wav lang out self = (s2, Ok u) ->
  In (Save out) (calls s2) \/ In (TtsToFile out) (calls s2).
Proof.
  unfold backend_dispatch, local_generation, api_generation. run.
  destruct (String.eqb (model_source self) "local").
  - destruct (get_or_create_latents w name wav self) as [s1 [l | e]];
      [| discriminate].
    destruct (inference w _ _ _ _ _) as [o | e]; [| discriminate]. cbn.
    destruct (torchaudio_save w out o); [| discriminate].
    intros [= <- <-]. left. now left.
  - destruct (tts_to_file w _ _ _ _ _); [| discriminate].
    intros [= <- <-]. right. now left.
Qed.

(** A call that returns: its two transitions and its dispatch returned. *)
Lemma process_tts_to_file_ok (w : World) text spk lang out self self' p :
  process_tts_to_file w text spk lang out self = (self', Ok p) ->
  exists (wav : speaker_wav) (s2 : TTSWrapper) (u : unit),
    get_speaker_wav w self spk = Ok wav
    /\ switch_model_device w self = (switched w self, Ok tt)
    /\ backend_dispatch w (clean_text text) spk wav lang
         (output_path self out) (switched w self) = (s2, Ok u)
    /\ switch_model_device w s2 = (switched w s2, Ok tt)
    /\ self' = switched w s2
    /\ p = output_path self out.
Proof.
  rewrite process_tts_to_file_run.
  destruct (get_speaker_wav w self spk) as [wav | e]; [| discriminate].
  destruct (switch_model_device w self) as [s1 [[] | e1]] eqn:Hs1;
    [| discriminate].
  pose proof (switch_model_device_ok w self s1 tt Hs1) as ->.
  destruct (backend_dispatch w _ spk wav lang _ _) as [s2 [u | e]] eqn:Hb;
    [| discriminate].
  destruct (switch_model_device w s2) as [s3 [[] | e3]] eqn:Hs3;
    [| discriminate].
  pose proof (switch_model_device_ok w s2 s3 tt Hs3) as ->.
  intros [= <- <-]. exists wav, s2, u. auto 10.
Qed.

(** C9: a synthesis call that succeeds returns the resolved output path,
    which is the path that the backend was given to write; an absolute target
    is used verbatim and any other is joined under the output directory,
    which for an output directory that is not empty and has no trailing
    separator puts one separator between the two. *)
Theorem process_tts_to_file_output_path :
  forall (w : World) (self self' : TTSWrapper) (text : list N)
         (spk lang out p : string),
    process_tts_to_file w text spk lang out self = (self', Ok p) ->
    p = output_path self out
    /\ (isabs out = true -> p = out)
    /\ (isabs out = false -> p = join (output_folder self) [out])
    /\ (isabs out = false -> output_folder self <> EmptyString ->
        endswith (output_folder self) "/" = false ->
        p = output_folder self +:+ "/" +:+ out)
    /\ (In (Save p) (calls self') \/ In (TtsToFile p) (calls self'))
    /\ output_folder self' = output_folder self.
Proof.
  intros w self self' text spk lang out p Hrun.
  apply process_tts_to_file_ok in Hrun.
  destruct Hrun as (wav & s2 & u & _ & _ & Hb & _ & -> & ->).
  pose proof (backend_dispatch_writes _ _ _ _ _ _ _ _ _ Hb) as Hw.
  apply backend_dispatch_placement in Hb. destruct Hb as (_ & _ & _ & Ho).
  unfold output_path in *. split; [reflexivity |].
  split; [intros ->; reflexivity |].
  split; [intros ->; reflexivity |].
  split; [| split].
  - intros Ha Hne Hsep. rewrite Ha. cbn [join fold_left]. unfold join_step.
    change (startswith out sep) with (isabs out). rewrite Ha.
    apply String.eqb_neq in Hne. unfold sep. now rewrite Hne, Hsep.
  - destruct Hw as [Hw | Hw]; [left | right]; now apply switched_calls.
  - now rewrite switched_output_folder, Ho, switched_output_folder.
Qed.

Lemma process_tts_to_file_output_path_witness :
  snd (process_tts_to_file (Demo.world true) (str "hi") "alice" "en"
         "clip.wav" (Demo.init false true "local" "cuda"))
  = Ok "/out/clip.wav"%string
  /\ "/out/clip.wav"%string = "/out" +:+ "/" +:+ "clip.wav".
Proof.
  assert (Hrun :
    process_tts_to_file (Demo.world true) (str "hi") "alice" "en" "clip.wav"
      (Demo.init false true "local" "cuda")
    = (fst (process_tts_to_file (Demo.world true) (str "hi") "alice" "en"
              "clip.wav" (Demo.init false true "local" "cuda")),
       Ok "/out/clip.wav"%string)).
  { vm_compute. reflexivity. }
  destruct (process_tts_to_file_output_path _ _ _ _ _ _ _ _ Hrun)
    as (_ & _ & _ & Hjoin & _ & _).
  split.
  - rewrite Hrun. reflexivity.
  - apply Hjoin; [reflexivity | discriminate | reflexivity].
Defined.

(** ** The latent cache *)

Lemma get_or_create_latents_run (w : World) name wav self :
  get_or_create_latents w name wav self =
  match latents_cache self !! name with
  | Some v => (self, Ok v)
  | None =>
      match get_conditioning_latents w (model_device self)
              (extractions self) wav with
      | Ok v =>
          (set_latents_cache (<[name := v]> (latents_cache self))
             (record (GetConditioningLatents wav) self), Ok v)
      | Raise e => (record (GetConditioningLatents wav) self, Raise e)
      end
  end.
Proof.
  unfold get_or_create_latents. run.
  destruct (latents_cache self !! name) as [v |] eqn:Hc; cbn.
  - now rewrite Hc.
  - destruct (get_conditioning_latents w _ _ wav) as [v | e]; cbn.
    + now rewrite lookup_insert_eq.
    + reflexivity.
Qed.

(** C3: a call of [get_or_create_latents] for a name that is cached returns
    the stored pair and leaves the object as it is, so it calls nothing on
    the model. A call for a name that is not cached asks the model once, for
    the latents of the references it was given, and its outcome is the
    model's: when the model answers, the pair is returned and stored under
    the name, and a second call for that name, with any references, returns
    the same pair and leaves the object as it is, so the extraction ran once,
    in the first call; when the model raises, nothing is stored. *)
Theorem get_or_create_latents_idempotent :
  forall (w : World) (self s1 : TTSWrapper) (name : string)
         (wav1 wav2 : speaker_wav) (r : result latents),
    get_or_create_latents w name wav1 self = (s1, r) ->
    match latents_cache self !! name with
    | Some v0 =>
        s1 = self /\ r = Ok v0
        /\ get_or_create_latents w name wav2 s1 = (s1, Ok v0)
    | None =>
        r = get_conditioning_latents w (model_device self) (extractions self)
              wav1
        /\ calls s1 = GetConditioningLatents wav1 :: calls self
        /\ extractions s1 = S (extractions self)
        /\ match r with
           | Ok v =>
               latents_cache s1 = <[name := v]> (latents_cache self)
               /\ get_or_create_latents w name wav2 s1 = (s1, Ok v)
           | Raise _ => latents_cache s1 = latents_cache self
           end
    end.
Proof.
  intros w self s1 name wav1 wav2 r H1.
  rewrite get_or_create_latents_run in H1.
  destruct (latents_cache self !! name) as [v0 |] eqn:Hc.
  - injection H1 as <- <-. split; [reflexivity |]. split; [reflexivity |].
    rewrite get_or_create_latents_run. now rewrite Hc.
  - destruct (get_conditioning_latents w _ _ wav1) as [v | e];
      injection H1 as <- <-.
    + split; [reflexivity |]. split; [reflexivity |].
      split; [reflexivity |]. split; [reflexivity |].
      rewrite get_or_create_latents_run. cbn [latents_cache set_latents_cache].
      now rewrite lookup_insert_eq.
    + split; [reflexivity |]. split; [reflexivity |].
      split; reflexivity.
Qed.

Lemma get_or_create_latents_idempotent_witness :
  get_or_create_latents (Demo.world true) "bob"
    (WavList ["/speakers/bob/b2.wav"%string])
    (fst (get_or_create_latents (Demo.world true) "bob"
            (WavList ["/speakers/bob/b1.wav"%string])
            (fst (get_or_create_latents (Demo.world true) "alice"
                    (WavPath "/speakers/alice.wav")
                    (Demo.init false true "local" "cuda")))))
  = (fst (get_or_create_latents (Demo.world true) "bob"
            (WavList ["/speakers/bob/b1.wav"%string])
            (fst (get_or_create_latents (Demo.world true) "alice"
                    (WavPath "/speakers/alice.wav")
                    (Demo.init false true "local" "cuda")))),
     Ok (Tensor 1, Tensor 1001))
  /\ extractions
       (fst (get_or_create_latents (Demo.world true) "bob"
               (WavList ["/speakers/bob/b1.wav"%string])
               (fst (get_or_create_latents (Demo.world true) "alice"
                       (WavPath "/speakers/alice.wav")
                       (Demo.init false true "local" "cuda")))))
     = 2.
Proof.
  set (s0 := fst (get_or_create_latents (Demo.world true) "alice"
                    (WavPath "/speakers/alice.wav")
                    (Demo.init false true "local" "cuda"))).
  set (x := get_or_create_latents (Demo.world true) "bob"
              (WavList ["/speakers/bob/b1.wav"%string]) s0).
  pose proof (get_or_create_latents_idempotent (Demo.world true) s0 (fst x)
                "bob" (WavList ["/speakers/bob/b1.wav"%string])
                (WavList ["/speakers/bob/b2.wav"%string]) (snd x)
                (surjective_pairing x)) as H.
  assert (Hmiss : latents_cache s0 !! "bob"%string = None)
    by (vm_compute; reflexivity).
  rewrite Hmiss in H. destruct H as (Hr & _ & He & Hrest).
  assert (Hans : snd x = Ok (Tensor 1, Tensor 1001))
    by (rewrite Hr; vm_compute; reflexivity).
  rewrite Hans in Hrest. destruct Hrest as [_ H2].
  split; [exact H2 | rewrite He; reflexivity].
Defined.

Lemma get_or_create_latents_cache (w : World) name wav self self' r :
  get_or_create_latents w name wav self = (self', r) ->
  cache_step w name wav self self'.
Proof.
  rewrite get_or_create_latents_run. unfold cache_step.
  destruct (latents_cache self !! name) as [v0 |] eqn:Hc.
  - intros [= <- <-]. now left.
  - destruct (get_conditioning_latents w _ _ wav) as [v | e] eqn:Hv.
    + intros [= <- <-]. right. split; [reflexivity |]. now exists v.
    + intros [= <- <-]. now left.
Qed.

Lemma local_generation_cache (w : World) text name wav lang out self self' r :
  local_generation w text name wav lang out self = (self', r) ->
  cache_step w name wav self self'.
Proof.
  unfold local_generation. run.
  destruct (get_or_create_latents w name wav self) as [s1 [l | e]] eqn:Hg;
    apply get_or_create_latents_cache in Hg.
  - destruct (inference w _ _ _ _ _) as [o | e]; cbn;
      intros [= <- <-]; exact Hg.
  - intros [= <- <-]. exact Hg.
Qed.

Lemma api_generation_cache (w : World) text wav lang out self self' r :
  api_generation w text wav lang out self = (self', r) ->
  latents_cache self' = latents_cache self.
Proof. unfold api_generation. run. now intros [= <- <-]. Qed.

(** The dispatch stores at most one entry, on the local backend only. *)
Lemma backend_dispatch_cache (w : World) text spk wav lang out self s2 u :
  backend_dispatch w text spk wav lang out self = (s2, u) ->
  latents_cache s2 = latents_cache self
  \/ (model_source self = "local"%string
      /\ cache_step w spk wav self s2).
Proof.
  unfold backend_dispatch. run.
  destruct (String.eqb (model_source self) "local") eqn:Hm.
  - intros Hl. apply local_generation_cache in Hl.
    right. apply String.eqb_eq in Hm. auto.
  - intros Ha. apply api_generation_cache in Ha. now left.
Qed.

(** C2 (amended): a synthesis call adds at most one entry to the latent
    cache, only on the local backend, and its key is the speaker identifier
    exactly as the caller passed it: a registry display name when the caller
    passed one, a path when the caller passed the path of a voice directory.
    The entry holds what the model extracted from the references that the
    identifier resolved to. *)
Theorem process_tts_to_file_cache_key :
  forall (w : World) (self self' : TTSWrapper) (text : list N)
         (spk lang out : string) (r : result string),
    process_tts_to_file w text spk lang out self = (self', r) ->
    latents_cache self' = latents_cache self
    \/ (model_source self = "local"%string
        /\ latents_cache self !! spk = None
        /\ exists (wav : speaker_wav) (v : latents),
             get_speaker_wav w self spk = Ok wav
             /\ get_conditioning_latents w
                  (model_device (fst (switch_model_device w self)))
                  (extractions self) wav = Ok v
             /\ latents_cache self' = <[spk := v]> (latents_cache self)).
Proof.
  intros w self self' text spk lang out r Hrun.
  rewrite process_tts_to_file_run in Hrun.
  destruct (get_speaker_wav w self spk) as [wav | e];
    [| injection Hrun as <- <-; now left].
  destruct (switch_model_device w self) as [s1 r1] eqn:Hs1.
  pose proof (switch_model_device_frame w self s1 r1 Hs1)
    as (_ & _ & _ & Hc1 & Hm1 & _ & He1 & _).
  destruct r1 as [u1 | e1]; [| injection Hrun as <- <-; now left].
  cbn [fst].
  assert (Hstep :
    forall s2 u,
      backend_dispatch w (clean_text text) spk wav lang
        (output_path self out) s1 = (s2, u) ->
      latents_cache s2 = latents_cache self
      \/ (model_source self = "local"%string
          /\ latents_cache self !! spk = None
          /\ exists (wav0 : speaker_wav) (v : latents),
               Ok wav = Ok wav0
               /\ get_conditioning_latents w (model_device s1)
                    (extractions self) wav0 = Ok v
               /\ latents_cache s2 = <[spk := v]> (latents_cache self))).
  { intros s2 u Hb. apply backend_dispatch_cache in Hb.
    destruct Hb as [Hb | [Hm [Hb | (Hnone & v & Hv & Hb)]]].
    - left. congruence.
    - left. congruence.
    - right. rewrite Hc1 in Hnone, Hb. rewrite He1 in Hv.
      split; [congruence |]. split; [exact Hnone |].
      exists wav, v. auto. }
  destruct (backend_dispatch w _ spk wav lang _ _) as [s2 [u | e]] eqn:Hb;
    specialize (Hstep _ _ eq_refl).
  - destruct (switch_model_device w s2) as [s3 r3] eqn:Hs3.
    pose proof (switch_model_device_frame w s2 s3 r3 Hs3)
      as (_ & _ & _ & Hc3 & _).
    assert (self' = s3) as -> by (destruct r3; now injection Hrun).
    rewrite Hc3. exact Hstep.
  - injection Hrun as <- <-. exact Hstep.
Qed.

Lemma process_tts_to_file_cache_key_witness :
  latents_cache (Demo.init false true "local" "cuda") !! "bob"%string = None
  /\ exists v : latents,
       get_conditioning_latents (Demo.world true) "cuda" 0
         (WavList ["/speakers/bob/b1.wav"; "/speakers/bob/b2.wav"]%string)
       = Ok v
       /\ latents_cache
            (fst (process_tts_to_file (Demo.world true) (str "hi") "bob" "en"
                    "out.wav" (Demo.init false true "local" "cuda")))
          = <["bob"%string := v]>
              (latents_cache (Demo.init false true "local" "cuda")).
Proof.
  set (x := process_tts_to_file (Demo.world true) (str "hi") "bob" "en"
              "out.wav" (Demo.init false true "local" "cuda")).
  destruct (process_tts_to_file_cache_key (Demo.world true)
              (Demo.init false true "local" "cuda") (fst x) (str "hi") "bob"
              "en" "out.wav" (snd x) (surjective_pairing x))
    as [Hsame | (_ & Hnone & wav & v & Hwav & Hv & Hnew)].
  - exfalso.
    assert (Hhit : latents_cache (fst x) !! "bob"%string
                   = Some (Tensor 0, Tensor 1000))
      by (vm_compute; reflexivity).
    rewrite Hsame in Hhit. vm_compute in Hhit. discriminate.
  - split; [exact Hnone |]. exists v. split; [| exact Hnew].
    vm_compute in Hwav. injection Hwav as <-. exact Hv.
Defined.

(** C2 as stated fails: on the local backend the caller passes the path of a
    voice directory outside the speaker folder; the latents are stored under
    that path, which is none of the display names that the registry
    produces. *)
Lemma process_tts_to_file_caches_under_raw_path :
  ~ (forall key : string,
       is_Some
         (latents_cache
            (fst (process_tts_to_file (Demo.world true) (str "hi")
                    "/voices/dave" "en" "out.wav"
                    (Demo.init false true "local" "cuda")))
          !! key) ->
       exists names : list string,
         get_speakers (Demo.world true)
           (Demo.init false true "local" "cuda") = Ok names
         /\ In key names).
Proof.
  intros H. destruct (H "/voices/dave"%string) as (names & Hn & Hin).
  - eexists. vm_compute. reflexivity.
  - vm_compute in Hn. injection Hn as <-.
    cbn in Hin. destruct Hin as [E | [E | [E | []]]]; discriminate.
Qed.
(** ** Text clean-up *)

Lemma sub_strip (s : list N) : Re.sub re_strip (fun _ => []) s = strip s.
Proof.
  unfold Re.sub, strip. induction s as [| c s IH]; [reflexivity |].
  cbn [Re.sub_scan List.filter]. unfold re_strip at 1. cbn [Re.rmatch].
  fold (is_stripped c). destruct (is_stripped c); cbn [negb].
  - replace (length (c :: s) - length s) with 1 by (cbn [length]; lia).
    exact IH.
  - now rewrite IH.
Qed.

Lemma tail_quote (rest g : list N) :
  Re.rmatch quoted_tail (DQUOTE :: rest) g = Some (g, rest).
Proof. reflexivity. Qed.

Lemma tail_nil (g : list N) : Re.rmatch quoted_tail [] g = None.
Proof. reflexivity. Qed.

Lemma tail_space_quote (c : N) (rest g : list N) :
  Re.is_space c = true ->
  Re.rmatch quoted_tail (c :: DQUOTE :: rest) g = Some (g, rest).
Proof. intros H. cbn. now rewrite H. Qed.

Lemma tail_other (c : N) (s g : list N) :
  c <> DQUOTE -> ~ In DQUOTE (firstn 1 s) ->
  Re.rmatch quoted_tail (c :: s) g = None.
Proof.
  intros Hc Hs. cbn.
  assert (Hq : (c =? DQUOTE)%N = false) by now apply N.eqb_neq.
  assert (Hs' : match s with
                | [] => None
                | d :: s' => if (d =? DQUOTE)%N then Some (g, s') else None
                end = None).
  { destruct s as [| d s']; [reflexivity |].
    destruct (N.eqb_spec d DQUOTE) as [-> | Hd]; [| reflexivity].
    exfalso. apply Hs. now left. }
  rewrite Hs', Hq. now destruct (Re.is_space c).
Qed.

Lemma lazy_star_unfold k cont (s acc : list N) :
  Re.lazy_star k cont s acc =
  match cont s (rev acc) with
  | Some m => Some m
  | None =>
      match s with
      | c :: s' =>
          if Re.cmatch k c then Re.lazy_star k cont s' (c :: acc) else None
      | [] => None
      end
  end.
Proof. destruct s; reflexivity. Qed.

Lemma lazy_no_quote (body acc : list N) :
  ~ In DQUOTE body ->
  Re.lazy_star Re.Dot (Re.rmatch quoted_tail) body acc = None.
Proof.
  revert acc. induction body as [| c b IH]; intros acc Hq.
  - reflexivity.
  - rewrite lazy_star_unfold. rewrite tail_other.
    + destruct (Re.cmatch Re.Dot c); [| reflexivity].
      apply IH. intros H. apply Hq. now right.
    + intros ->. apply Hq. now left.
    + intros H. apply Hq. right. destruct b; [destruct H |].
      cbn in H. destruct H as [<- | []]. now left.
Qed.

Lemma lazy_span (body rest acc : list N) :
  ~ In DQUOTE body -> ~ In LF body ->
  Re.lazy_star Re.Dot (Re.rmatch quoted_tail) (body ++ DQUOTE :: rest) acc
  = Some (rev acc ++ trim_end body, rest).
Proof.
  revert acc. induction body as [| c b IH]; intros acc Hq Hl.
  - cbn [app]. rewrite lazy_star_unfold, tail_quote.
    cbn [trim_end]. now rewrite app_nil_r.
  - assert (Hc : c <> DQUOTE) by (intros ->; apply Hq; now left).
    assert (Hdot : Re.cmatch Re.Dot c = true).
    { cbn. apply negb_true_iff, N.eqb_neq. intros ->. apply Hl. now left. }
    assert (Hqb : ~ In DQUOTE b) by (intros H; apply Hq; now right).
    assert (Hlb : ~ In LF b) by (intros H; apply Hl; now right).
    specialize (IH (c :: acc) Hqb Hlb).
    cbn [app]. rewrite lazy_star_unfold.
    destruct b as [| d b'].
    + cbn [app] in *. destruct (Re.is_space c) eqn:Hs.
      * rewrite tail_space_quote by assumption.
        cbn [trim_end]. now rewrite Hs, app_nil_r.
      * assert (Hnone : Re.rmatch quoted_tail (c :: DQUOTE :: rest)
                          (rev acc) = None).
        { cbn. rewrite Hs. now apply N.eqb_neq in Hc as ->. }
        rewrite Hnone, Hdot, IH. cbn [trim_end rev]. now rewrite Hs.
    + rewrite tail_other.
      * rewrite Hdot, IH. cbn [rev]. rewrite <- app_assoc. reflexivity.
      * exact Hc.
      * cbn [firstn app In]. intros [E | []]. apply Hqb. now left.
Qed.

Lemma rmatch_quoted_unfold (s : list N) :
  Re.rmatch re_quoted s [] =
  match s with
  | [] => None
  | c :: s' =>
      if (c =? DQUOTE)%N then
        match s' with
        | [] => Re.lazy_star Re.Dot (Re.rmatch quoted_tail) s' []
        | d :: s'' =>
            if Re.is_space d then
              match Re.lazy_star Re.Dot (Re.rmatch quoted_tail) s'' [] with
              | Some m => Some m
              | None => Re.lazy_star Re.Dot (Re.rmatch quoted_tail) s' []
              end
            else Re.lazy_star Re.Dot (Re.rmatch quoted_tail) s' []
        end
      else None
  end.
Proof. destruct s as [| c [| d s'']]; reflexivity. Qed.

Lemma rmatch_quoted_span (body rest : list N) :
  ~ In DQUOTE body -> ~ In LF body ->
  Re.rmatch re_quoted (DQUOTE :: body ++ DQUOTE :: rest) []
  = Some (trim body, rest).
Proof.
  intros Hq Hl. rewrite rmatch_quoted_unfold, N.eqb_refl.
  destruct body as [| c b].
  - cbn [app]. assert (Hs : Re.is_space DQUOTE = false) by reflexivity.
    rewrite Hs. exact (lazy_span [] rest [] Hq Hl).
  - cbn [app trim].
    destruct (Re.is_space c).
    + rewrite (lazy_span b rest []); [reflexivity | |];
        intros H; [apply Hq | apply Hl]; now right.
    + exact (lazy_span (c :: b) rest [] Hq Hl).
Qed.

Lemma rmatch_quoted_open (body : list N) :
  ~ In DQUOTE body -> Re.rmatch re_quoted (DQUOTE :: body) [] = None.
Proof.
  intros Hq. rewrite rmatch_quoted_unfold, N.eqb_refl.
  destruct body as [| c b]; [reflexivity |].
  rewrite (lazy_no_quote b []) by (intros H; apply Hq; now right).
  rewrite (lazy_no_quote (c :: b) []) by exact Hq.
  now destruct (Re.is_space c).
Qed.

Lemma rmatch_quoted_other (c : N) (s : list N) :
  c <> DQUOTE -> Re.rmatch re_quoted (c :: s) [] = None.
Proof.
  intros Hc. rewrite rmatch_quoted_unfold.
  now apply N.eqb_neq in Hc as ->.
Qed.

Section SubQuoted.

Variable repl : list N -> list N.

Lemma sub_scan_skip (r : Re.regex) (l s : list N) :
  Re.sub_scan r repl (length l) (l ++ s) = Re.sub_scan r repl 0 s.
Proof.
  induction l as [| c l IH]; [reflexivity |]. cbn [length app Re.sub_scan].
  exact IH.
Qed.

Lemma sub_quoted_prefix (pre s : list N) :
  ~ In DQUOTE pre ->
  Re.sub re_quoted repl (pre ++ s) = pre ++ Re.sub re_quoted repl s.
Proof.
  unfold Re.sub. induction pre as [| c pre IH]; intros Hq; [reflexivity |].
  cbn [app Re.sub_scan]. rewrite rmatch_quoted_other.
  - rewrite IH; [reflexivity |]. intros H. apply Hq. now right.
  - intros ->. apply Hq. now left.
Qed.

Lemma sub_quoted_no_quote (s : list N) :
  ~ In DQUOTE s -> Re.sub re_quoted repl s = s.
Proof.
  intros Hq. rewrite <- (app_nil_r s) at 1.
  rewrite sub_quoted_prefix by exact Hq. cbn. apply app_nil_r.
Qed.

Lemma sub_quoted_open (body : list N) :
  ~ In DQUOTE body ->
  Re.sub re_quoted repl (DQUOTE :: body) = DQUOTE :: body.
Proof.
  intros Hq. unfold Re.sub. cbn [Re.sub_scan].
  rewrite rmatch_quoted_open by exact Hq. f_equal.
  now apply sub_quoted_no_quote.
Qed.

Lemma sub_quoted_span (body rest : list N) :
  ~ In DQUOTE body -> ~ In LF body ->
  Re.sub re_quoted repl (DQUOTE :: body ++ DQUOTE :: rest)
  = repl (trim body) ++ Re.sub re_quoted repl rest.
Proof.
  intros Hq Hl. unfold Re.sub. cbn [Re.sub_scan].
  rewrite rmatch_quoted_span by assumption.
  replace (length (DQUOTE :: body ++ DQUOTE :: rest) - length rest)
    with (S (length (body ++ [DQUOTE]))).
  - f_equal.
    replace (body ++ DQUOTE :: rest) with ((body ++ [DQUOTE]) ++ rest)
      by now rewrite <- app_assoc.
    apply sub_scan_skip.
  - cbn [length]. rewrite !length_app. cbn [length]. lia.
Qed.

End SubQuoted.

Lemma lazy_star_within k cont :
  (forall s g m, cont s g = Some m -> within s g m) ->
  forall s acc m, Re.lazy_star k cont s acc = Some m -> within s acc m.
Proof.
  intros Hcont. induction s as [| c s IH]; intros acc m;
    rewrite lazy_star_unfold.
  - destruct (cont [] (rev acc)) as [m' |] eqn:Hc; [| discriminate].
    intros [= <-]. destruct (Hcont _ _ _ Hc) as [H1 H2]. split; [| exact H2].
    intros c Hin. destruct (H1 c Hin) as [H | H]; [| now right].
    left. now apply in_rev.
  - destruct (cont (c :: s) (rev acc)) as [m' |] eqn:Hc.
    + intros [= <-]. destruct (Hcont _ _ _ Hc) as [H1 H2].
      split; [| exact H2].
      intros c0 Hin. destruct (H1 c0 Hin) as [H | H]; [| now right].
      left. now apply in_rev.
    + destruct (Re.cmatch k c); [| discriminate].
      intros Hl. destruct (IH _ _ Hl) as [H1 H2]. split.
      * intros c0 Hin. destruct (H1 c0 Hin) as [[<- | H] | H].
        -- right. now left.
        -- now left.
        -- right. now right.
      * intros c0 Hin. right. now apply H2.
Qed.

Lemma rmatch_within (r : Re.regex) :
  forall s g m, Re.rmatch r s g = Some m -> within s g m.
Proof.
  induction r as [| [k | k | k] r IH]; intros s g m; cbn [Re.rmatch].
  - intros [= <-]. split; cbn; auto.
  - destruct s as [| c s]; [discriminate |].
    destruct (Re.cmatch k c); [| discriminate].
    intros H. destruct (IH _ _ _ H) as [H1 H2]. split.
    + intros c0 Hin. destruct (H1 c0 Hin); [now left | right; now right].
    + intros c0 Hin. right. now apply H2.
  - assert (Htail : forall c s', Re.rmatch r s' g = Some m ->
                                 within (c :: s') g m).
    { intros c s' H. destruct (IH _ _ _ H) as [H1 H2]. split.
      - intros c0 Hin. destruct (H1 c0 Hin); [now left | right; now right].
      - intros c0 Hin. right. now apply H2. }
    destruct s as [| c s]; [apply IH |].
    destruct (Re.cmatch k c); [| apply IH].
    destruct (Re.rmatch r s g) as [m' |] eqn:Hm; [| apply IH].
    intros [= <-]. now apply Htail.
  - intros H. destruct (lazy_star_within k _ (IH) _ _ _ H) as [H1 H2].
    split; [| exact H2].
    intros c Hin. destruct (H1 c Hin) as [[] | Hs]. now right.
Qed.

Lemma sub_scan_within (r : Re.regex) (repl : list N -> list N) (q : N) :
  (forall g c, In c (repl g) -> In c g \/ c = q) ->
  forall s n c, In c (Re.sub_scan r repl n s) -> In c s \/ c = q.
Proof.
  intros Hrepl. induction s as [| c0 s IH]; intros n c; cbn [Re.sub_scan].
  - destruct n; [| intros []].
    destruct (Re.rmatch r [] []) as [[g rest] |] eqn:Hm; [| intros []].
    intros Hin. destruct (Hrepl _ _ Hin) as [Hg | ->]; [| now right].
    destruct (rmatch_within _ _ _ _ Hm) as [H1 _].
    destruct (H1 c Hg) as [[] | []].
  - destruct n as [| n].
    + destruct (Re.rmatch r (c0 :: s) []) as [[g rest] |] eqn:Hm.
      * destruct (rmatch_within _ _ _ _ Hm) as [H1 _]. cbn [fst] in H1.
        assert (Hg : In c (repl g) -> In c (c0 :: s) \/ c = q).
        { intros Hin. destruct (Hrepl _ _ Hin) as [Hg | ->]; [| now right].
          destruct (H1 c Hg) as [[] | Hs]. now left. }
        destruct (length (c0 :: s) - length rest); intros Hin;
          apply in_app_or in Hin; destruct Hin as [Hin | Hin]; auto.
        -- destruct Hin as [<- | Hin]; [left; now left |].
           destruct (IH _ _ Hin); [left; now right | now right].
        -- destruct (IH _ _ Hin); [left; now right | now right].
      * intros [<- | Hin]; [left; now left |].
        destruct (IH _ _ Hin); [left; now right | now right].
    + intros Hin. destruct (IH _ _ Hin); [left; now right | now right].
Qed.

Lemma strip_app (a b : list N) : strip (a ++ b) = strip a ++ strip b.
Proof. apply List.filter_app. Qed.

Lemma strip_In (s : list N) (c : N) :
  In c (strip s) <-> In c s /\ is_stripped c = false.
Proof.
  unfold strip. rewrite List.filter_In. now rewrite negb_true_iff.
Qed.

Lemma clean_text_strip (text : list N) :
  clean_text text
  = Re.sub re_quoted (fun g => [SQUOTE] ++ g ++ [SQUOTE]) (strip text).
Proof. unfold clean_text. now rewrite sub_strip. Qed.

(** C8: the cleaned text holds no asterisk, carriage return or line feed;
    the first double-quoted span becomes the same span between single
    quotes, less one space inside each quote, and the text after it is
    cleaned in the same way, so every span is rewritten; a double quote
    without a partner stays; and the example of the spec evaluates as
    stated. *)
Theorem clean_text_normalizes :
  (forall (text : list N) (c : N),
     In c (clean_text text) -> c <> ASTERISK /\ c <> CR /\ c <> LF)
  /\ (forall pre body rest : list N,
        ~ In DQUOTE pre -> ~ In DQUOTE body ->
        clean_text (pre ++ [DQUOTE] ++ body ++ [DQUOTE] ++ rest)
        = strip pre ++ [SQUOTE] ++ trim (strip body) ++ [SQUOTE]
          ++ clean_text rest)
  /\ (forall pre body : list N,
        ~ In DQUOTE pre -> ~ In DQUOTE body ->
        clean_text (pre ++ [DQUOTE] ++ body)
        = strip pre ++ [DQUOTE] ++ strip body)
  /\ (forall text : list N, ~ In DQUOTE text -> clean_text text = strip text)
  /\ clean_text (str "*hi*" ++ [LF] ++ [DQUOTE] ++ str "there" ++ [DQUOTE])
     = str "hi'there'".
Proof.
  assert (Hkeep : forall s, ~ In DQUOTE s -> ~ In DQUOTE (strip s)).
  { intros s H Hin. apply strip_In in Hin. now apply H. }
  assert (Hlf : forall s, ~ In LF (strip s)).
  { intros s Hin. apply strip_In in Hin. destruct Hin as [_ H].
    discriminate. }
  split; [| split; [| split; [| split]]].
  - intros text c Hin. rewrite clean_text_strip in Hin.
    apply (sub_scan_within _ _ SQUOTE) in Hin.
    + destruct Hin as [Hin | ->]; [| repeat split; discriminate].
      apply strip_In in Hin. destruct Hin as [_ Hs].
      repeat split; intros ->; discriminate.
    + intros g c0 H0. cbn in H0. destruct H0 as [<- | H0]; [now right |].
      apply in_app_or in H0. destruct H0 as [H0 | [<- | []]]; auto.
  - intros pre body rest Hp Hb. rewrite !clean_text_strip.
    rewrite !strip_app. change (strip [DQUOTE]) with [DQUOTE].
    rewrite sub_quoted_prefix by auto. cbn [app].
    rewrite sub_quoted_span by auto. cbn [app].
    now rewrite <- app_assoc.
  - intros pre body Hp Hb. rewrite !clean_text_strip.
    rewrite !strip_app. change (strip [DQUOTE]) with [DQUOTE].
    rewrite sub_quoted_prefix by auto. cbn [app].
    now rewrite sub_quoted_open by auto.
  - intros text Hq. rewrite clean_text_strip.
    now rewrite sub_quoted_no_quote by auto.
  - reflexivity.
Qed.

Lemma clean_text_normalizes_witness :
  clean_text (str "say " ++ [DQUOTE] ++ str " *hi* " ++ [DQUOTE]
              ++ str " now")
  = str "say 'hi' now".
Proof.
  destruct clean_text_normalizes as (_ & Hspan & _ & Hplain & _).
  rewrite (Hspan (str "say ") (str " *hi* ") (str " now")).
  - rewrite (Hplain (str " now")); [reflexivity |].
    cbn. intros H. repeat (destruct H as [H | H]; [discriminate |]).
    exact H.
  - cbn. intros H. repeat (destruct H as [H | H]; [discriminate |]).
    exact H.
  - cbn. intros H. repeat (destruct H as [H | H]; [discriminate |]).
    exact H.
Defined.

(** * Further properties of the class *)

(** ** The synthesis call, continued *)

(** A transition keeps the device field in step with the model, unless its
    relocation raises. *)
Lemma switch_model_device_tracks_model (w : World) (self s1 : TTSWrapper)
      (r : result unit) :
  model_device self = device self ->
  switch_model_device w self = (s1, r) ->
  model_device s1 = device s1
  \/ exists e : exn,
       r = Raise e
       /\ model_to w (calls self) (model_device self) (device s1) = Raise e.
Proof.
  intros Hinv. rewrite switch_model_device_run.
  destruct (switch_enabled w self) eqn:He.
  - destruct (model_to w _ _ _) as [[] | e] eqn:Hto.
    + intros Hs. left.
      assert (s1 = switched w self) as ->
        by (destruct (String.eqb (toggle_target self) "cpu");
            now injection Hs as <- _).
      now destruct (switched_device w self He) as (_ & Hm & _).
    + intros [= <- <-]. right. exists e. auto.
  - intros [= <- _]. now left.
Qed.

(** X1: if the device field names the place of the model before a synthesis
    call, it does so after the call unless the call raised the error of a
    relocation. When the relocation of the pre-call transition raises, the
    call raises its error with the device field already switched and the
    model where it was, so the field no longer names the place of the
    model. *)
Theorem process_tts_to_file_device_tracks_model :
  forall (w : World) (self self' : TTSWrapper) (text : list N)
         (spk lang out : string) (r : result string),
    model_device self = device self ->
    process_tts_to_file w text spk lang out self = (self', r) ->
    (model_device self' = device self'
     \/ exists (e : exn) (history : list event) (place : string),
          r = Raise e
          /\ model_to w history place (device self') = Raise e)
    /\ (forall (wav : speaker_wav) (e : exn),
          get_speaker_wav w self spk = Ok wav ->
          switch_enabled w self = true ->
          model_to w (calls self) (model_device self)
            (if String.eqb (device self) (cuda self)
             then "cpu"%string else cuda self) = Raise e ->
          r = Raise e
          /\ device self'
             = (if String.eqb (device self) (cuda self)
                then "cpu"%string else cuda self)
          /\ model_device self' = model_device self
          /\ model_device self' <> device self').
Proof.
  intros w self self' text spk lang out r Hinv Hrun.
  rewrite process_tts_to_file_run in Hrun. split.
  - destruct (get_speaker_wav w self spk) as [wav | e];
      [| injection Hrun as <- <-; now left].
    destruct (switch_model_device w self) as [s1 r1] eqn:Hs1.
    destruct (switch_model_device_tracks_model w self s1 r1 Hinv Hs1)
      as [H1 | (e1 & -> & Hto1)].
    + destruct r1 as [u1 | e1]; [| injection Hrun as <- <-; now left].
      destruct (backend_dispatch w _ spk wav lang _ _) as [s2 [u | e]] eqn:Hb;
        apply backend_dispatch_placement in Hb; destruct Hb as (Hp & _);
        unfold placement in Hp; injection Hp as Hc Hd Hl Hm.
      * assert (H2 : model_device s2 = device s2) by congruence.
        destruct (switch_model_device w s2) as [s3 r3] eqn:Hs3.
        destruct (switch_model_device_tracks_model w s2 s3 r3 H2 Hs3)
          as [H3 | (e3 & -> & Hto3)].
        -- left. destruct r3; now injection Hrun as <- _.
        -- right. injection Hrun as <- <-. eauto.
      * injection Hrun as <- <-. left. congruence.
    + injection Hrun as <- <-. right. eauto.
  - intros wav e Hwav Hon Hto. rewrite Hwav in Hrun.
    rewrite switch_model_device_run, Hon in Hrun.
    unfold toggle_target in Hrun. rewrite Hto in Hrun.
    injection Hrun as <- <-. cbn.
    split; [reflexivity |]. split; [reflexivity |]. split; [reflexivity |].
    rewrite Hinv. intros Heq.
    apply switch_enabled_spec in Hon. destruct Hon as (_ & _ & Hne).
    destruct (String.eqb (device self) (cuda self)) eqn:E.
    + apply String.eqb_eq in E. congruence.
    + apply String.eqb_neq in E. congruence.
Qed.

Lemma process_tts_to_file_device_tracks_model_witness :
  snd (process_tts_to_file (Demo.oom_world true) (str "hi") "alice" "en"
         "out.wav" (Demo.init true true "local" "cuda"))
  = Raise (BackendError 3)
  /\ device
       (fst (process_tts_to_file (Demo.oom_world true) (str "hi") "alice"
               "en" "out.wav" (Demo.init true true "local" "cuda")))
     = "cuda"%string
  /\ model_device
       (fst (process_tts_to_file (Demo.oom_world true) (str "hi") "alice"
               "en" "out.wav" (Demo.init true true "local" "cuda")))
     = "cpu"%string.
Proof.
  set (x := process_tts_to_file (Demo.oom_world true) (str "hi") "alice"
              "en" "out.wav" (Demo.init true true "local" "cuda")).
  destruct (proj2 (process_tts_to_file_device_tracks_model
                     (Demo.oom_world true)
                     (Demo.init true true "local" "cuda") (fst x) (str "hi")
                     "alice" "en" "out.wav" (snd x) eq_refl
                     (surjective_pairing x))
              (WavPath "/speakers/alice.wav") (BackendError 3)
              eq_refl eq_refl eq_refl)
    as (Hr & Hd & Hm & _).
  split; [exact Hr |]. split; [exact Hd | exact Hm].
Defined.

(** X2: a synthesis call whose speaker cannot be resolved raises the error of
    the resolution and leaves the object as it was: no relocation, no call on
    the model, no cache entry. For a name that matches neither a directory
    nor an audio file the error is the [ValueError] that names the speaker. *)
Theorem process_tts_to_file_unresolved_speaker :
  forall (w : World) (self : TTSWrapper) (text : list N)
         (spk lang out : string),
    (forall e : exn,
       get_speaker_wav w self spk = Raise e ->
       process_tts_to_file w text spk lang out self = (self, Raise e))
    /\ (endswith spk ".wav" = false ->
        isdir w (join (speaker_folder self) [spk]) = false ->
        isfile w (join (speaker_folder self) [spk] +:+ ".wav") = false ->
        process_tts_to_file w text spk lang out self
        = (self, Raise (ValueError ("Speaker " +:+ spk +:+ " not found.")))).
Proof.
  intros w self text spk lang out. split.
  - intros e He. now rewrite process_tts_to_file_run, He.
  - intros Hs Hd Hf. rewrite process_tts_to_file_run.
    rewrite (get_speaker_wav_name w self spk Hs). cbv zeta.
    now rewrite Hd, Hf.
Qed.

Lemma process_tts_to_file_unresolved_speaker_witness :
  process_tts_to_file (Demo.world true) (str "hi") "zoe" "en" "out.wav"
    (Demo.init true true "local" "cuda")
  = (Demo.init true true "local" "cuda",
     Raise (ValueError "Speaker zoe not found.")).
Proof.
  apply (proj2 (process_tts_to_file_unresolved_speaker (Demo.world true)
                  (Demo.init true true "local" "cuda") (str "hi") "zoe" "en"
                  "out.wav")); reflexivity.
Defined.

(** A dispatch for a speaker whose latents are cached extracts nothing and
    leaves the cache as it is. *)
Lemma backend_dispatch_cached (w : World) text spk wav lang out self s2 u
      (v : latents) :
  latents_cache self !! spk = Some v ->
  backend_dispatch w text spk wav lang out self = (s2, u) ->
  extractions s2 = extractions self /\ latents_cache s2 = latents_cache self.
Proof.
  intros Hhit. unfold backend_dispatch, local_generation, api_generation. run.
  destruct (String.eqb (model_source self) "local").
  - rewrite get_or_create_latents_run, Hhit.
    destruct (inference w _ _ _ _ _) as [o | e]; cbn.
    + intros [= <- <-]. auto.
    + intros [= <- <-]. auto.
  - intros [= <- <-]. auto.
Qed.

Lemma process_tts_to_file_cached (w : World) (self self' : TTSWrapper)
      (text : list N) (spk lang out : string) (r : result string)
      (v : latents) :
  latents_cache self !! spk = Some v ->
  process_tts_to_file w text spk lang out self = (self', r) ->
  extractions self' = extractions self
  /\ latents_cache self' = latents_cache self.
Proof.
  intros Hhit Hrun.
  rewrite process_tts_to_file_run in Hrun.
  destruct (get_speaker_wav w self spk) as [wav | e];
    [| injection Hrun as <- <-; auto].
  destruct (switch_model_device w self) as [s1 r1] eqn:Hs1.
  pose proof (switch_model_device_frame w self s1 r1 Hs1)
    as (_ & _ & _ & Hc1 & _ & _ & He1 & _).
  destruct r1 as [u1 | e1]; [| injection Hrun as <- <-; auto].
  assert (Hhit' : latents_cache s1 !! spk = Some v) by now rewrite Hc1.
  destruct (backend_dispatch w _ spk wav lang _ _) as [s2 [u | e]] eqn:Hb;
    destruct (backend_dispatch_cached _ _ _ _ _ _ _ _ _ _ Hhit' Hb)
      as [He Hc].
  - destruct (switch_model_device w s2) as [s3 r3] eqn:Hs3.
    pose proof (switch_model_device_frame w s2 s3 r3 Hs3)
      as (_ & _ & _ & Hc3 & _ & _ & He3 & _).
    assert (self' = s3) as -> by (destruct r3; now injection Hrun).
    split; congruence.
  - injection Hrun as <- <-. split; congruence.
Qed.

(** X3: a synthesis call for an identifier whose latents are cached extracts
    nothing and leaves the cache as it is, on either backend and whatever the
    outcome. *)
Theorem process_tts_to_file_reuses_cached_latents :
  forall (w : World) (self self' : TTSWrapper) (text : list N)
         (spk lang out : string) (r : result string) (v : latents),
    latents_cache self !! spk = Some v ->
    process_tts_to_file w text spk lang out self = (self', r) ->
    extractions self' = extractions self
    /\ latents_cache self' = latents_cache self.
Proof. intros. eapply process_tts_to_file_cached; eauto. Qed.

Lemma process_tts_to_file_reuses_cached_latents_witness :
  extractions
    (fst (process_tts_to_file (Demo.world true) (str "again") "bob" "en"
            "b.wav"
            (fst (process_tts_to_file (Demo.world true) (str "hi") "bob"
                    "en" "a.wav" (Demo.init false true "local" "cuda")))))
  = 1.
Proof.
  set (s1 := fst (process_tts_to_file (Demo.world true) (str "hi") "bob"
                    "en" "a.wav" (Demo.init false true "local" "cuda"))).
  set (x := process_tts_to_file (Demo.world true) (str "again") "bob" "en"
              "b.wav" s1).
  assert (Hhit : latents_cache s1 !! "bob"%string
                 = Some (Tensor 0, Tensor 1000)) by (vm_compute; reflexivity).
  destruct (process_tts_to_file_reuses_cached_latents (Demo.world true) s1
              (fst x) (str "again") "bob" "en" "b.wav" (snd x)
              (Tensor 0, Tensor 1000) Hhit (surjective_pairing x))
    as [He _].
  rewrite He. reflexivity.
Defined.

Lemma local_generation_ok_cached (w : World) text name wav lang out
      self s' u :
  local_generation w text name wav lang out self = (s', Ok u) ->
  is_Some (latents_cache s' !! name).
Proof.
  unfold local_generation. run. rewrite get_or_create_latents_run.
  destruct (latents_cache self !! name) as [v0 |] eqn:Hc.
  - destruct (inference w _ _ _ _ _) as [o | e]; cbn; [| discriminate].
    intros [= <- _]. cbn. rewrite Hc. eauto.
  - destruct (get_conditioning_latents w _ _ wav) as [v | e];
      [| discriminate].
    destruct (inference w _ _ _ _ _) as [o | e]; cbn; [| discriminate].
    intros [= <- _]. cbn. rewrite lookup_insert_eq. eauto.
Qed.

(** X4: after a synthesis call on the local backend has succeeded for an
    identifier, its latents are cached, and any later call for the same
    identifier, with any text, language and target and whatever the model
    then answers, extracts nothing and leaves the cache as it is. *)
Theorem process_tts_to_file_second_call_extracts_nothing :
  forall (w1 w2 : World) (self s1 s2 : TTSWrapper) (text1 text2 : list N)
         (spk lang1 lang2 out1 out2 p : string) (r : result string),
    model_source self = "local"%string ->
    process_tts_to_file w1 text1 spk lang1 out1 self = (s1, Ok p) ->
    process_tts_to_file w2 text2 spk lang2 out2 s1 = (s2, r) ->
    is_Some (latents_cache s1 !! spk)
    /\ extractions s2 = extractions s1
    /\ latents_cache s2 = latents_cache s1.
Proof.
  intros w1 w2 self s1 s2 text1 text2 spk lang1 lang2 out1 out2 p r
         Hlocal H1 H2.
  assert (Hc : is_Some (latents_cache s1 !! spk)).
  { apply process_tts_to_file_ok in H1.
    destruct H1 as (wav & s & u & _ & _ & Hb & _ & -> & _).
    rewrite switched_latents_cache.
    unfold backend_dispatch in Hb. run.
    rewrite switched_model_source, Hlocal in Hb. cbn in Hb.
    eapply local_generation_ok_cached; eauto. }
  split; [exact Hc |]. destruct Hc as [v Hv].
  eapply process_tts_to_file_cached; eauto.
Qed.

Lemma process_tts_to_file_second_call_extracts_nothing_witness :
  extractions
    (fst (process_tts_to_file (Demo.failing_world true) (str "again") "bob"
            "fr" "b.wav"
            (fst (process_tts_to_file (Demo.world true) (str "hi") "bob"
                    "en" "a.wav" (Demo.init false true "local" "cuda")))))
  = 1.
Proof.
  set (x1 := process_tts_to_file (Demo.world true) (str "hi") "bob" "en"
               "a.wav" (Demo.init false true "local" "cuda")).
  set (x2 := process_tts_to_file (Demo.failing_world true) (str "again")
               "bob" "fr" "b.wav" (fst x1)).
  assert (H1 : x1 = (fst x1, Ok "/out/a.wav"%string))
    by (vm_compute; reflexivity).
  destruct (process_tts_to_file_second_call_extracts_nothing
              (Demo.world true) (Demo.failing_world true)
              (Demo.init false true "local" "cuda") (fst x1) (fst x2)
              (str "hi") (str "again") "bob" "en" "fr" "a.wav" "b.wav"
              "/out/a.wav" (snd x2) eq_refl H1 (surjective_pairing x2))
    as (_ & He & _).
  rewrite He. reflexivity.
Defined.

(** X5: when the pre-call transition has returned, the extraction succeeds
    and the inference then raises, the call fails but the latents stay cached
    under the identifier, so a retry does not extract them again. *)
Theorem process_tts_to_file_failure_keeps_latents :
  forall (w : World) (self : TTSWrapper) (text : list N)
         (spk lang out : string) (wav : speaker_wav) (v : latents) (e : exn),
    model_source self = "local"%string ->
    get_speaker_wav w self spk = Ok wav ->
    latents_cache self !! spk = None ->
    snd (switch_model_device w self) = Ok tt ->
    get_conditioning_latents w
      (model_device (fst (switch_model_device w self)))
      (extractions self) wav = Ok v ->
    inference w (model_device (fst (switch_model_device w self)))
      (clean_text text) lang (fst v) (snd v) = Raise e ->
    exists self' : TTSWrapper,
      process_tts_to_file w text spk lang out self = (self', Raise e)
      /\ latents_cache self' = <[spk := v]> (latents_cache self)
      /\ extractions self' = S (extractions self).
Proof.
  intros w self text spk lang out wav v e Hlocal Hwav Hmiss Hpre Hext Hinf.
  rewrite (switch_model_device_returns w self Hpre) in Hext, Hinf.
  cbn [fst] in Hext, Hinf.
  rewrite (process_tts_to_file_run_switched w text spk lang out self wav
             Hwav Hpre).
  unfold backend_dispatch, local_generation. run.
  rewrite switched_model_source, Hlocal. cbn [String.eqb Ascii.eqb Bool.eqb].
  rewrite get_or_create_latents_run.
  rewrite switched_latents_cache, Hmiss, extractions_switched, Hext.
  cbn [model_device set_latents_cache record].
  rewrite Hinf. eexists. split; [reflexivity |]. cbn.
  split; [reflexivity |]. f_equal.
  exact (extractions_switched w self).
Qed.

Lemma process_tts_to_file_failure_keeps_latents_witness :
  exists self' : TTSWrapper,
    process_tts_to_file (Demo.failing_world true) (str "hi") "alice" "en"
      "out.wav" (Demo.init true true "local" "cuda")
    = (self', Raise (BackendError 1))
    /\ latents_cache self'
       = <["alice"%string := (Tensor 0, Tensor 1000)]>
           (latents_cache (Demo.init true true "local" "cuda"))
    /\ extractions self'
       = S (extractions (Demo.init true true "local" "cuda")).
Proof.
  apply (process_tts_to_file_failure_keeps_latents (Demo.failing_world true)
           (Demo.init true true "local" "cuda") (str "hi") "alice" "en"
           "out.wav" (WavPath "/speakers/alice.wav")
           (Tensor 0, Tensor 1000) (BackendError 1));
    reflexivity.
Defined.

Lemma generation_calls_record (e : event) (self : TTSWrapper) :
  generation_calls (record e self)
  = if is_transition e then generation_calls self
    else e :: generation_calls self.
Proof. unfold generation_calls. cbn. now destruct (is_transition e). Qed.

(** X6: with any model source other than the local one, once the speaker is
    resolved and the pre-call transition has returned, the dispatch is one
    call: the file-producing call of the model, on the cleaned text, the
    resolved references as they are, the language and the output path, and
    its outcome is the outcome of the dispatch. When it raises, the synthesis
    call raises the same error; when it returns, the synthesis call returns
    the output path if the post-call transition returns. Apart from what the
    two transitions call, the file-producing call is the only call that the
    synthesis call makes: it extracts no latents, and it leaves the cache as
    it is. *)
Theorem process_tts_to_file_api_backend :
  forall (w : World) (self s1 : TTSWrapper) (text : list N)
         (spk lang out : string) (wav : speaker_wav),
    model_source self <> "local"%string ->
    get_speaker_wav w self spk = Ok wav ->
    switch_model_device w self = (s1, Ok tt) ->
    backend_dispatch w (clean_text text) spk wav lang (output_path self out)
      s1
    = (record (TtsToFile (output_path self out)) s1,
       tts_to_file w (model_device s1) (clean_text text) wav lang
         (output_path self out))
    /\ process_tts_to_file w text spk lang out self
       = match tts_to_file w (model_device s1) (clean_text text) wav lang
                 (output_path self out) with
         | Ok _ =>
             (fst (switch_model_device w
                     (record (TtsToFile (output_path self out)) s1)),
              match snd (switch_model_device w
                           (record (TtsToFile (output_path self out)) s1))
              with
              | Ok _ => Ok (output_path self out)
              | Raise e => Raise e
              end)
         | Raise e => (record (TtsToFile (output_path self out)) s1, Raise e)
         end
    /\ generation_calls (fst (process_tts_to_file w text spk lang out self))
       = TtsToFile (output_path self out) :: generation_calls self
    /\ extractions (fst (process_tts_to_file w text spk lang out self))
       = extractions self
    /\ latents_cache (fst (process_tts_to_file w text spk lang out self))
       = latents_cache self.
Proof.
  intros w self s1 text spk lang out wav Hapi Hwav Hs1.
  pose proof (switch_model_device_frame w self s1 (Ok tt) Hs1)
    as (_ & _ & _ & Hc1 & Hm1 & _ & He1 & Hg1 & _).
  assert (Hb :
    backend_dispatch w (clean_text text) spk wav lang (output_path self out)
      s1
    = (record (TtsToFile (output_path self out)) s1,
       tts_to_file w (model_device s1) (clean_text text) wav lang
         (output_path self out))).
  { unfold backend_dispatch, api_generation. run. rewrite Hm1.
    apply String.eqb_neq in Hapi. now rewrite Hapi. }
  assert (Hrun :
    process_tts_to_file w text spk lang out self
    = match tts_to_file w (model_device s1) (clean_text text) wav lang
              (output_path self out) with
      | Ok _ =>
          (fst (switch_model_device w
                  (record (TtsToFile (output_path self out)) s1)),
           match snd (switch_model_device w
                        (record (TtsToFile (output_path self out)) s1))
           with
           | Ok _ => Ok (output_path self out)
           | Raise e => Raise e
           end)
      | Raise e => (record (TtsToFile (output_path self out)) s1, Raise e)
      end).
  { rewrite process_tts_to_file_run, Hwav, Hs1, Hb.
    destruct (tts_to_file w _ _ _ _ _) as [u | e]; [| reflexivity].
    cbv beta iota.
    now destruct (switch_model_device w (record _ s1)) as [s3 [u3 | e3]]. }
  split; [exact Hb |]. split; [exact Hrun |]. rewrite Hrun.
  destruct (tts_to_file w _ _ _ _ _) as [u | e]; cbn [fst].
  - destruct (switch_model_device w
                (record (TtsToFile (output_path self out)) s1))
      as [s3 r3] eqn:Hs3.
    pose proof (switch_model_device_frame w _ s3 r3 Hs3)
      as (_ & _ & _ & Hc3 & _ & _ & He3 & Hg3 & _).
    cbn [fst]. rewrite Hg3, He3, Hc3, generation_calls_record,
      extractions_record. cbn. rewrite Hg1, He1, Hc1. auto.
  - rewrite generation_calls_record, extractions_record. cbn.
    rewrite Hg1, He1, Hc1. auto.
Qed.

Lemma process_tts_to_file_api_backend_witness :
  process_tts_to_file (Demo.world true) (str "*hi*") "bob" "en" "out.wav"
    (Demo.init true true "api" "cuda")
  = (fst (process_tts_to_file (Demo.world true) (str "*hi*") "bob" "en"
            "out.wav" (Demo.init true true "api" "cuda")),
     Ok "/out/out.wav"%string)
  /\ generation_calls
       (fst (process_tts_to_file (Demo.world true) (str "*hi*") "bob" "en"
               "out.wav" (Demo.init true true "api" "cuda")))
     = [TtsToFile "/out/out.wav"].
Proof.
  set (x1 := switch_model_device (Demo.world true)
               (Demo.init true true "api" "cuda")).
  assert (Hs1 : x1 = (fst x1, Ok tt)) by (vm_compute; reflexivity).
  destruct (process_tts_to_file_api_backend (Demo.world true)
              (Demo.init true true "api" "cuda") (fst x1) (str "*hi*") "bob"
              "en" "out.wav"
              (WavList ["/speakers/bob/b1.wav"; "/speakers/bob/b2.wav"]%string))
    as (_ & Hrun & Hg & _ & _).
  - discriminate.
  - reflexivity.
  - exact Hs1.
  - split; [| exact Hg]. rewrite Hrun. vm_compute. reflexivity.
Defined.

(** X7: in low-memory mode with an accelerator, a synthesis call that
    succeeds relocates the model exactly twice: first away from where it is,
    then back. For a model on host memory that is to the target and back to
    host memory, where the call ends by emptying the accelerator's cache; for
    a model left on the target it is the reverse, so the backend then runs
    with the model on host memory. *)
Theorem process_tts_to_file_relocates_twice :
  forall (w : World) (self self' : TTSWrapper) (text : list N)
         (spk lang out p : string),
    switch_enabled w self = true ->
    device self = "cpu"%string \/ device self = cuda self ->
    process_tts_to_file w text spk lang out self = (self', Ok p) ->
    relocations self'
    = ModelTo (device self)
      :: ModelTo (if String.eqb (device self) (cuda self)
                  then "cpu"%string else cuda self)
      :: relocations self
    /\ device self' = device self
    /\ (device self = "cpu"%string -> hd_error (calls self') = Some EmptyCache).
Proof.
  intros w self self' text spk lang out p Hon Hdev Hrun.
  apply process_tts_to_file_ok in Hrun.
  destruct Hrun as (wav & s2 & u & _ & _ & Hb & _ & -> & _).
  apply backend_dispatch_placement in Hb. destruct Hb as (Hp & Hr & _).
  assert (Hon2 : switch_enabled w s2 = true).
  { rewrite (switch_enabled_congr w _ _ Hp).
    now rewrite switch_enabled_switched. }
  destruct (switched_device_congr w _ _ Hp) as (Hd2 & _).
  pose proof (switched_twice_device w self Hon Hdev) as Htwice.
  destruct (switched_device w self Hon) as (Hd1 & _).
  split; [| split].
  - rewrite (switched_relocations w s2 Hon2), Hr.
    rewrite (switched_relocations w self Hon). now rewrite Hd2, Htwice, Hd1.
  - now rewrite Hd2.
  - intros Hcpu. assert (Hend : device (switched w s2) = "cpu"%string)
      by now rewrite Hd2, Htwice.
    revert Hend. unfold switched. rewrite Hon2. cbv zeta.
    destruct (String.eqb (if String.eqb (device s2) (cuda s2)
                          then "cpu"%string else cuda s2) "cpu") eqn:E.
    + reflexivity.
    + cbn. intros Hend. rewrite Hend in E. discriminate.
Qed.

Lemma process_tts_to_file_relocates_twice_witness :
  relocations
    (fst (process_tts_to_file (Demo.world true) (str "hi") "alice" "en"
            "out.wav" (Demo.init true true "local" "cuda")))
  = [ModelTo "cpu"; ModelTo "cuda"].
Proof.
  set (x := process_tts_to_file (Demo.world true) (str "hi") "alice" "en"
              "out.wav" (Demo.init true true "local" "cuda")).
  assert (Hrun : x = (fst x, Ok "/out/out.wav"%string))
    by (vm_compute; reflexivity).
  destruct (process_tts_to_file_relocates_twice (Demo.world true)
              (Demo.init true true "local" "cuda") (fst x) (str "hi")
              "alice" "en" "out.wav" "/out/out.wav" eq_refl
              (or_introl eq_refl) Hrun) as (Hr & _).
  rewrite Hr. reflexivity.
Defined.

(** ** The registry of speakers *)

Lemma _get_speakers_loop_acc (w : World) (folder : string)
      (entries : list string) :
  forall acc : list speaker,
    _get_speakers_loop w folder entries acc
    = match _get_speakers_loop w folder entries [] with
      | Ok l => Ok (acc ++ l)
      | Raise e => Raise e
      end.
Proof.
  induction entries as [| f entries IH]; intros acc; cbn [_get_speakers_loop].
  - now rewrite app_nil_r.
  - cbv zeta. destruct (isdir w (join folder [f])).
    + destruct (get_wav_files w (join folder [f])) as [[| first others] | e];
        cbn [bind_result]; [apply IH | | reflexivity].
      rewrite (IH (acc ++ _)), (IH ([] ++ _)).
      destruct (_get_speakers_loop w folder entries []); [| reflexivity].
      now rewrite <- app_assoc.
    + destruct (endswith f ".wav"); [| apply IH].
      rewrite (IH (acc ++ _)), (IH ([] ++ _)).
      destruct (_get_speakers_loop w folder entries []); [| reflexivity].
      now rewrite <- app_assoc.
Qed.

Lemma _get_speakers_loop_registry (w : World) (folder : string) :
  forall (entries : list string) (speakers : list speaker),
    _get_speakers_loop w folder entries [] = Ok speakers ->
    registry w folder entries speakers.
Proof.
  induction entries as [| f entries IH]; intros speakers;
    cbn [_get_speakers_loop].
  - intros [= <-]. constructor.
  - cbv zeta. destruct (isdir w (join folder [f])) eqn:Hd.
    + destruct (get_wav_files w (join folder [f]))
        as [[| first others] | e] eqn:Hg; cbn [bind_result];
        [| | discriminate].
      * intros H. apply registry_skip; [| now apply IH].
        intros sp [(_ & first & others & Hg' & _) | (Hd' & _)]; congruence.
      * rewrite _get_speakers_loop_acc.
        destruct (_get_speakers_loop w folder entries []) as [l |];
          [| discriminate].
        intros [= <-]. cbn [app]. apply registry_keep; [| now apply IH].
        left. split; [exact Hd |]. now exists first, others.
    + destruct (endswith f ".wav") eqn:Hs.
      * rewrite _get_speakers_loop_acc.
        destruct (_get_speakers_loop w folder entries []) as [l |];
          [| discriminate].
        intros [= <-]. cbn [app]. apply registry_keep; [| now apply IH].
        right. auto.
      * intros H. apply registry_skip; [| now apply IH].
        intros sp [(Hd' & _) | (_ & Hs' & _)]; congruence.
Qed.

Lemma registry_sound (w : World) (folder : string) entries speakers :
  registry w folder entries speakers ->
  forall sp, In sp speakers ->
             exists f, In f entries /\ listed_from w folder f sp.
Proof.
  induction 1 as [| f entries sp0 speakers Hl _ IH | f entries speakers _ _ IH];
    intros sp Hin.
  - destruct Hin.
  - destruct Hin as [<- | Hin].
    + exists f. split; [now left | exact Hl].
    + destruct (IH sp Hin) as (f' & Hf' & Hl'). exists f'. split; auto.
      now right.
  - destruct (IH sp Hin) as (f' & Hf' & Hl'). exists f'. split; auto.
    now right.
Qed.

Lemma registry_complete (w : World) (folder : string) entries speakers :
  registry w folder entries speakers ->
  forall f sp, In f entries -> listed_from w folder f sp -> In sp speakers.
Proof.
  induction 1 as [| f entries sp0 speakers Hl _ IH | f entries speakers Hn _ IH];
    intros f' sp Hin Hl'.
  - destruct Hin.
  - destruct Hin as [<- | Hin]; [| right; eauto].
    left. destruct Hl as [(Hd & a & b & Hg & ->) | (Hd & Hs & ->)];
      destruct Hl' as [(Hd' & a' & b' & Hg' & ->) | (Hd' & Hs' & ->)];
      congruence.
  - destruct Hin as [<- | Hin]; [| eauto]. exfalso. eapply Hn; eauto.
Qed.

Lemma registry_length (w : World) (folder : string) entries speakers :
  registry w folder entries speakers -> length speakers <= length entries.
Proof. induction 1; cbn; lia. Qed.

(** X8: when the registry scan returns, its speakers are, in the order of
    the listing, one speaker for each entry that is a directory listing at
    least one audio file (named after the directory, with all its audio
    files as references and the first as preview) or is no directory and
    ends with the audio extension (named by [splitext], with the file as
    reference and preview); every other entry, an audio-less directory
    included, gives none. *)
Theorem _get_speakers_lists_valid_entries :
  forall (w : World) (self : TTSWrapper) (entries : list string)
         (speakers : list speaker),
    listdir w (speaker_folder self) = Some entries ->
    _get_speakers w self = Ok speakers ->
    registry w (speaker_folder self) entries speakers
    /\ (forall sp, In sp speakers <->
                   exists f, In f entries
                             /\ listed_from w (speaker_folder self) f sp)
    /\ length speakers <= length entries.
Proof.
  intros w self entries speakers Hl Hs. unfold _get_speakers in Hs.
  rewrite Hl in Hs. apply _get_speakers_loop_registry in Hs.
  split; [exact Hs |]. split; [| now apply registry_length in Hs].
  intros sp. split.
  - now apply registry_sound.
  - intros (f & Hf & Hsp). eapply registry_complete; eauto.
Qed.

Lemma _get_speakers_lists_valid_entries_witness :
  length (A := speaker)
    [ {| speaker_name := "alice";
         speaker_wavs := WavPath "/speakers/alice.wav";
         preview := "alice.wav" |};
      {| speaker_name := "bob";
         speaker_wavs :=
           WavList ["/speakers/bob/b1.wav"; "/speakers/bob/b2.wav"]%string;
         preview := "bob/b1.wav" |};
      {| speaker_name := "carol";
         speaker_wavs := WavPath "/speakers/carol.wav";
         preview := "carol.wav" |} ]
  <= length ["alice.wav"; "bob"; "notes.txt"; "carol"; "carol.wav"]%string.
Proof.
  apply (_get_speakers_lists_valid_entries (Demo.world true)
           (Demo.init false true "local" "cuda")
           ["alice.wav"; "bob"; "notes.txt"; "carol"; "carol.wav"]%string).
  - reflexivity.
  - reflexivity.
Defined.

Lemma _get_speakers_loop_ok (w : World) (folder : string) :
  forall entries : list string,
    (forall f, In f entries -> isdir w (join folder [f]) = true ->
               is_Some (listdir w (join folder [f]))) ->
    exists speakers, _get_speakers_loop w folder entries [] = Ok speakers.
Proof.
  induction entries as [| f entries IH]; intros Hall;
    cbn [_get_speakers_loop]; [eauto |].
  destruct IH as [l Hl]; [intros g Hg; apply Hall; now right |].
  cbv zeta. destruct (isdir w (join folder [f])) eqn:Hd.
  - destruct (Hall f (or_introl eq_refl) Hd) as [names Hn].
    unfold get_wav_files. rewrite Hn. cbn [bind_result].
    destruct (List.filter _ names); [eauto |].
    rewrite _get_speakers_loop_acc, Hl. eauto.
  - destruct (endswith f ".wav"); [| eauto].
    rewrite _get_speakers_loop_acc, Hl. eauto.
Qed.

Lemma _get_speakers_loop_raise (w : World) (folder : string) :
  forall (entries : list string) (acc : list speaker) (e : exn),
    _get_speakers_loop w folder entries acc = Raise e ->
    exists f, In f entries /\ isdir w (join folder [f]) = true
              /\ listdir w (join folder [f]) = None
              /\ e = OSError (join folder [f]).
Proof.
  induction entries as [| f entries IH]; intros acc e;
    cbn [_get_speakers_loop]; [discriminate |].
  assert (Hrest : forall acc', _get_speakers_loop w folder entries acc'
                               = Raise e ->
                  exists g, In g (f :: entries)
                            /\ isdir w (join folder [g]) = true
                            /\ listdir w (join folder [g]) = None
                            /\ e = OSError (join folder [g])).
  { intros acc' H. destruct (IH _ _ H) as (g & Hg & Hrest).
    exists g. split; [now right | exact Hrest]. }
  cbv zeta. destruct (isdir w (join folder [f])) eqn:Hd.
  - unfold get_wav_files.
    destruct (listdir w (join folder [f])) as [names |] eqn:Hn;
      cbn [bind_result].
    + destruct (List.filter _ names); apply Hrest.
    + intros [= <-]. exists f. split; [now left | auto].
  - destruct (endswith f ".wav"); apply Hrest.
Qed.

(** X9: the registry scan returns exactly when the speaker folder can be
    listed and so can every entry of it that is a directory; otherwise it
    raises the [OSError] of the first listing that fails, so one unreadable
    subdirectory hides all speakers. *)
Theorem _get_speakers_raises_on_unlistable_directory :
  forall (w : World) (self : TTSWrapper),
    ((exists speakers, _get_speakers w self = Ok speakers) <->
     exists entries,
       listdir w (speaker_folder self) = Some entries
       /\ forall f, In f entries ->
                    isdir w (join (speaker_folder self) [f]) = true ->
                    is_Some (listdir w (join (speaker_folder self) [f])))
    /\ (forall e, _get_speakers w self = Raise e ->
                  exists path, e = OSError path /\ listdir w path = None).
Proof.
  intros w self. unfold _get_speakers. split; [split |].
  - intros [speakers Hs].
    destruct (listdir w (speaker_folder self)) as [entries |];
      [| discriminate].
    exists entries. split; [reflexivity |]. intros f Hf Hd.
    destruct (listdir w (join (speaker_folder self) [f])) eqn:Hn; [eauto |].
    exfalso. clear - Hs Hf Hd Hn. revert speakers Hs.
    generalize (@nil speaker).
    induction entries as [| g entries IH]; intros acc speakers;
      [destruct Hf |]. cbn [_get_speakers_loop]. cbv zeta.
    destruct Hf as [-> | Hf].
    + rewrite Hd. unfold get_wav_files. rewrite Hn. discriminate.
    + destruct (isdir w (join (speaker_folder self) [g])).
      * destruct (get_wav_files w _) as [[| a b] | e]; cbn [bind_result];
          [eauto | eauto | discriminate].
      * destruct (endswith g ".wav"); eauto.
  - intros (entries & Hl & Hall). rewrite Hl.
    now apply _get_speakers_loop_ok.
  - intros e. destruct (listdir w (speaker_folder self)) as [entries |] eqn:Hl.
    + intros H. apply _get_speakers_loop_raise in H.
      destruct H as (f & _ & _ & Hn & ->). eauto.
    + intros [= <-]. eauto.
Qed.

Lemma _get_speakers_raises_on_unlistable_directory_witness :
  exists speakers,
    _get_speakers (Demo.world true) (Demo.init false true "local" "cuda")
    = Ok speakers.
Proof.
  apply (proj1 (_get_speakers_raises_on_unlistable_directory
                  (Demo.world true) (Demo.init false true "local" "cuda"))).
  exists ["alice.wav"; "bob"; "notes.txt"; "carol"; "carol.wav"]%string.
  split; [reflexivity |].
  intros f Hf Hd. cbn in Hf.
  destruct Hf as [<- | [<- | [<- | [<- | [<- | []]]]]];
    vm_compute; eauto; vm_compute in Hd; discriminate.
Defined.

(** X10: a multi-sample speaker that the registry lists, whose name does not
    end with the audio extension, resolves by its name to exactly the
    references that the registry shows for it. *)
Theorem get_speaker_wav_agrees_with_registry :
  forall (w : World) (self : TTSWrapper) (speakers : list speaker)
         (sp : speaker) (refs : list string),
    _get_speakers w self = Ok speakers ->
    In sp speakers ->
    speaker_wavs sp = WavList refs ->
    endswith (speaker_name sp) ".wav" = false ->
    get_speaker_wav w self (speaker_name sp) = Ok (WavList refs).
Proof.
  intros w self speakers sp refs Hs Hin Hrefs Hname.
  unfold _get_speakers in Hs.
  destruct (listdir w (speaker_folder self)) as [entries |];
    [| discriminate].
  apply _get_speakers_loop_registry in Hs.
  destruct (registry_sound _ _ _ _ Hs sp Hin) as (f & _ & Hl).
  destruct Hl as [(Hd & first & others & Hg & ->) | (_ & _ & ->)];
    [| discriminate].
  cbn [speaker_name speaker_wavs] in *. injection Hrefs as <-.
  rewrite (get_speaker_wav_name w self f Hname). cbv zeta.
  now rewrite Hd, Hg.
Qed.

Lemma get_speaker_wav_agrees_with_registry_witness :
  get_speaker_wav (Demo.world true) (Demo.init false true "local" "cuda")
    "bob"
  = Ok (WavList ["/speakers/bob/b1.wav"; "/speakers/bob/b2.wav"]%string).
Proof.
  apply (get_speaker_wav_agrees_with_registry (Demo.world true)
           (Demo.init false true "local" "cuda")
           [ {| speaker_name := "alice";
                speaker_wavs := WavPath "/speakers/alice.wav";
                preview := "alice.wav" |};
             {| speaker_name := "bob";
                speaker_wavs :=
                  WavList ["/speakers/bob/b1.wav";
                           "/speakers/bob/b2.wav"]%string;
                preview := "bob/b1.wav" |};
             {| speaker_name := "carol";
                speaker_wavs := WavPath "/speakers/carol.wav";
                preview := "carol.wav" |} ]
           {| speaker_name := "bob";
              speaker_wavs :=
                WavList ["/speakers/bob/b1.wav";
                         "/speakers/bob/b2.wav"]%string;
              preview := "bob/b1.wav" |}).
  - reflexivity.
  - right. left. reflexivity.
  - reflexivity.
  - reflexivity.
Defined.

(** ** The warm-up of the cache *)

Lemma get_or_create_latents_keeps (w : World) name wav self s' r :
  get_or_create_latents w name wav self = (s', r) ->
  speaker_folder s' = speaker_folder self
  /\ placement s' = placement self
  /\ relocations s' = relocations self
  /\ (forall k v, latents_cache self !! k = Some v ->
                  latents_cache s' !! k = Some v)
  /\ (forall u, r = Ok u -> latents_cache s' !! name = Some u).
Proof.
  rewrite get_or_create_latents_run.
  destruct (latents_cache self !! name) as [v0 |] eqn:Hc.
  - intros [= <- <-]. repeat split; auto. now intros u [= <-].
  - destruct (get_conditioning_latents w _ _ wav) as [v | e];
      intros [= <- <-]; cbn; repeat split; auto.
    + intros k v' Hk. destruct (decide (name = k)) as [<- | Hne];
        [congruence |]. now rewrite lookup_insert_ne.
    + intros u [= <-]. apply lookup_insert_eq.
    + discriminate.
Qed.

Lemma create_latents_loop_keeps (w : World) :
  forall (l : list speaker) (self s' : TTSWrapper) (r : result unit),
    create_latents_loop w l self = (s', r) ->
    speaker_folder s' = speaker_folder self
    /\ placement s' = placement self
    /\ relocations s' = relocations self
    /\ (forall k v, latents_cache self !! k = Some v ->
                    latents_cache s' !! k = Some v)
    /\ (r = Ok tt ->
        forall sp, In sp l -> is_Some (latents_cache s' !! speaker_name sp)).
Proof.
  induction l as [| sp l IH]; intros self s' r; cbn [create_latents_loop]; run.
  - intros [= <- <-]. repeat split; auto. intros _ sp [].
  - destruct (get_or_create_latents w _ _ self) as [s1 [u | e]] eqn:Hg;
      apply get_or_create_latents_keeps in Hg;
      destruct Hg as (Hf & Hp & Hr & Hmono & Hhit).
    + intros Hl. destruct (IH _ _ _ Hl) as (Hf' & Hp' & Hr' & Hmono' & Hall).
      repeat split; try congruence; auto.
      intros Hok sp' [<- | Hin]; [| now apply Hall].
      exists u. apply Hmono'. now apply Hhit.
    + intros [= <- <-]. repeat split; auto. discriminate.
Qed.

Lemma create_latents_loop_cached (w : World) :
  forall (l : list speaker) (self : TTSWrapper),
    (forall sp, In sp l -> is_Some (latents_cache self !! speaker_name sp)) ->
    create_latents_loop w l self = (self, Ok tt).
Proof.
  induction l as [| sp l IH]; intros self Hall; cbn [create_latents_loop]; run;
    [reflexivity |].
  rewrite get_or_create_latents_run.
  destruct (Hall sp (or_introl eq_refl)) as [v Hv]. rewrite Hv.
  apply IH. intros sp' Hin. apply Hall. now right.
Qed.



(** X12: a warm-up that follows a warm-up that returned changes nothing and
    calls nothing on the model. *)
Theorem create_latents_for_all_twice :
  forall (w : World) (self s1 : TTSWrapper) (u : unit),
    create_latents_for_all w self = (s1, Ok u) ->
    create_latents_for_all w s1 = (s1, Ok tt).
Proof.
  intros w self s1 u. unfold create_latents_for_all, _get_speakers. run.
  destruct (listdir w (speaker_folder self)) as [entries |] eqn:Hls;
    [| discriminate].
  destruct (_get_speakers_loop w _ entries []) as [speakers | e] eqn:Hs;
    [| discriminate].
  intros Hl. destruct u.
  destruct (create_latents_loop_keeps w _ _ _ _ Hl) as (Hf & _ & _ & _ & Hall).
  rewrite Hf, Hls, Hs. apply create_latents_loop_cached. now apply Hall.
Qed.

Lemma create_latents_for_all_twice_witness :
  extractions
    (fst (create_latents_for_all (Demo.world true)
            (fst (create_latents_for_all (Demo.world true)
                    (Demo.init false true "local" "cuda")))))
  = 3.
Proof.
  set (x := create_latents_for_all (Demo.world true)
              (Demo.init false true "local" "cuda")).
  assert (Hrun : x = (fst x, Ok tt)) by (vm_compute; reflexivity).
  rewrite (create_latents_for_all_twice (Demo.world true)
             (Demo.init false true "local" "cuda") (fst x) tt Hrun).
  vm_compute. reflexivity.
Defined.

(** ** Text clean-up, continued *)

Lemma first_quote_split (s : list N) :
  In DQUOTE s ->
  exists pre tail, s = pre ++ DQUOTE :: tail /\ ~ In DQUOTE pre.
Proof.
  induction s as [| c s IH]; [intros [] |].
  destruct (N.eq_dec c DQUOTE) as [-> | Hc].
  - intros _. exists [], s. split; [reflexivity | intros []].
  - intros [Heq | Hin]; [congruence |].
    destruct (IH Hin) as (pre & tail & -> & Hpre).
    exists (c :: pre), tail. split; [reflexivity |].
    intros [Heq | H]; [congruence | contradiction].
Qed.

(** Texts by their double quotes: none, one without a partner, or a first
    span followed by a text. *)
Lemma quoted_cases_ind (P : list N -> Prop) :
  (forall s, ~ In DQUOTE s -> P s) ->
  (forall pre body, ~ In DQUOTE pre -> ~ In DQUOTE body ->
                    P (pre ++ DQUOTE :: body)) ->
  (forall pre body rest, ~ In DQUOTE pre -> ~ In DQUOTE body -> P rest ->
                         P (pre ++ DQUOTE :: body ++ DQUOTE :: rest)) ->
  forall s, P s.
Proof.
  intros Hnone Hopen Hspan s.
  remember (length s) as n eqn:Hn. revert s Hn.
  induction n as [n IH] using lt_wf_ind. intros s Hn.
  destruct (in_dec N.eq_dec DQUOTE s) as [Hin | Hno]; [| now apply Hnone].
  destruct (first_quote_split s Hin) as (pre & tail & -> & Hpre).
  destruct (in_dec N.eq_dec DQUOTE tail) as [Hin2 | Hno2];
    [| now apply Hopen].
  destruct (first_quote_split tail Hin2) as (body & rest & -> & Hbody).
  apply Hspan; [assumption | assumption |].
  apply (IH (length rest)); [| reflexivity].
  subst n. rewrite !length_app. cbn [length]. rewrite length_app.
  cbn [length]. lia.
Qed.

Lemma trim_end_In (s : list N) (c : N) : In c (trim_end s) -> In c s.
Proof.
  induction s as [| d s IH]; [intros [] |]. cbn [trim_end].
  destruct s as [| d' s'].
  - destruct (Re.is_space d); [intros [] | auto].
  - intros [<- | H]; [now left | right; now apply IH].
Qed.

Lemma trim_In (s : list N) (c : N) : In c (trim s) -> In c s.
Proof.
  destruct s as [| d s]; [intros [] |]. cbn [trim].
  destruct (Re.is_space d); intros H; apply trim_end_In in H; auto.
  now right.
Qed.

Lemma not_In_app (x : N) (a b : list N) :
  ~ In x (a ++ b) <-> ~ In x a /\ ~ In x b.
Proof. rewrite in_app_iff. tauto. Qed.

Lemma sub_requote_fixed :
  forall s, ~ In LF s ->
            Re.sub re_quoted requote (Re.sub re_quoted requote s)
            = Re.sub re_quoted requote s.
Proof.
  induction s as [s Hs | pre body Hp Hb | pre body rest Hp Hb IH]
    using quoted_cases_ind; intros Hlf.
  - now rewrite !(sub_quoted_no_quote requote s Hs).
  - rewrite (sub_quoted_prefix requote pre (DQUOTE :: body) Hp).
    rewrite (sub_quoted_open requote body Hb).
    rewrite (sub_quoted_prefix requote pre (DQUOTE :: body) Hp).
    now rewrite (sub_quoted_open requote body Hb).
  - apply not_In_app in Hlf. destruct Hlf as [_ Hlf].
    apply not_in_cons in Hlf. destruct Hlf as [_ Hlf].
    apply not_In_app in Hlf. destruct Hlf as [Hlb Hlf].
    apply not_in_cons in Hlf. destruct Hlf as [_ Hlr].
    rewrite sub_quoted_prefix, sub_quoted_span by assumption.
    rewrite app_assoc. rewrite sub_quoted_prefix.
    + now rewrite IH.
    + apply not_In_app. split; [assumption |]. unfold requote.
      cbn [app]. intros [E | H]; [discriminate |].
      apply in_app_or in H. destruct H as [H | [E | []]];
        [| discriminate]. apply Hb. now apply trim_In.
Qed.

Lemma clean_text_requote (text : list N) :
  clean_text text = Re.sub re_quoted requote (strip text).
Proof. apply clean_text_strip. Qed.

Lemma strip_fixed (s : list N) :
  (forall c, In c s -> is_stripped c = false) -> strip s = s.
Proof.
  induction s as [| c s IH]; intros H; [reflexivity |].
  unfold strip. cbn [List.filter]. rewrite (H c (or_introl eq_refl)).
  cbn [negb]. f_equal. apply IH. intros d Hd. apply H. now right.
Qed.

Lemma strip_no_LF (s : list N) : ~ In LF (strip s).
Proof. intros H. apply strip_In in H. destruct H as [_ H]. discriminate. Qed.

Lemma clean_text_chars (text : list N) (c : N) :
  In c (clean_text text) -> is_stripped c = false.
Proof.
  rewrite clean_text_requote. intros H.
  apply (sub_scan_within _ _ SQUOTE) in H.
  - destruct H as [H | ->]; [| reflexivity].
    apply strip_In in H. now destruct H.
  - intros g d Hd. unfold requote in Hd. cbn [app] in Hd.
    destruct Hd as [<- | Hd]; [now right |].
    apply in_app_or in Hd. destruct Hd as [Hd | [<- | []]]; auto.
Qed.

(** X13: cleaning a cleaned text changes nothing. *)
Theorem clean_text_idempotent :
  forall text : list N, clean_text (clean_text text) = clean_text text.
Proof.
  intros text. rewrite (clean_text_requote (clean_text text)).
  rewrite (strip_fixed (clean_text text)) by apply clean_text_chars.
  rewrite clean_text_requote. apply sub_requote_fixed, strip_no_LF.
Qed.

Lemma quotes_app (a b : list N) : quotes (a ++ b) = quotes a + quotes b.
Proof. apply count_occ_app. Qed.

Lemma quotes_none (s : list N) : ~ In DQUOTE s -> quotes s = 0.
Proof. apply count_occ_not_In. Qed.

Lemma quotes_strip (s : list N) : quotes (strip s) = quotes s.
Proof.
  unfold quotes, strip. induction s as [| c s IH]; [reflexivity |].
  cbn [List.filter]. destruct (is_stripped c) eqn:E; cbn [negb].
  - rewrite (count_occ_cons_neq N.eq_dec s (x := c) (y := DQUOTE));
      [exact IH | intros ->; discriminate].
  - destruct (N.eq_dec c DQUOTE) as [Hc | Hc].
    + rewrite !(count_occ_cons_eq N.eq_dec _ Hc). now rewrite IH.
    + rewrite !(count_occ_cons_neq N.eq_dec _ Hc). exact IH.
Qed.

Lemma quotes_sub_requote :
  forall s, ~ In LF s ->
            quotes (Re.sub re_quoted requote s) = quotes s mod 2.
Proof.
  induction s as [s Hs | pre body Hp Hb | pre body rest Hp Hb IH]
    using quoted_cases_ind; intros Hlf.
  - rewrite (sub_quoted_no_quote requote s Hs).
    now rewrite (quotes_none s Hs).
  - rewrite (sub_quoted_prefix requote pre (DQUOTE :: body) Hp).
    rewrite (sub_quoted_open requote body Hb).
    rewrite quotes_app, (quotes_none pre Hp).
    change (DQUOTE :: body) with ([DQUOTE] ++ body).
    now rewrite quotes_app, (quotes_none body Hb).
  - apply not_In_app in Hlf. destruct Hlf as [_ Hlf].
    apply not_in_cons in Hlf. destruct Hlf as [_ Hlf].
    apply not_In_app in Hlf. destruct Hlf as [Hlb Hlf].
    apply not_in_cons in Hlf. destruct Hlf as [_ Hlr].
    rewrite sub_quoted_prefix, sub_quoted_span by assumption.
    assert (Hq : quotes (requote (trim body)) = 0).
    { apply quotes_none. unfold requote. cbn [app].
      intros [E | H]; [discriminate |].
      apply in_app_or in H. destruct H as [H | [E | []]];
        [| discriminate]. apply Hb. now apply trim_In. }
    rewrite !quotes_app, Hq, (quotes_none pre Hp), (IH Hlr).
    change (DQUOTE :: body ++ DQUOTE :: rest)
      with ([DQUOTE] ++ body ++ [DQUOTE] ++ rest).
    rewrite !quotes_app, (quotes_none body Hb).
    change (quotes [DQUOTE]) with 1. cbn [Nat.add].
    change (S (S (quotes rest))) with (2 + quotes rest).
    rewrite <- (Nat.Div0.add_mod_idemp_l 2 (quotes rest) 2).
    reflexivity.
Qed.

(** X14: the double quotes left in a cleaned text are none when the text
    has an even number of them, and one, the last, when it has an odd
    number: all quotes with a partner are rewritten. *)
Theorem clean_text_quote_parity :
  forall text : list N, quotes (clean_text text) = quotes text mod 2.
Proof.
  intros text. rewrite clean_text_requote.
  rewrite quotes_sub_requote by apply strip_no_LF.
  now rewrite quotes_strip.
Qed.

(** ** The folders *)

(** X15: [create_directories] changes nothing when both folders exist; and
    when [os.makedirs] makes the path it is given exist and removes nothing,
    a run that returns leaves both folders existing and everything that
    existed before. *)
Theorem create_directories_makes_both_folders :
  forall (disk : Type) (os : Os disk) (self : TTSWrapper) (d : disk),
    (os_path_exists os d
       (os_path_abspath os (os_path_normpath os (output_folder self))) = true ->
     os_path_exists os d
       (os_path_abspath os (os_path_normpath os (speaker_folder self))) = true ->
     create_directories os self d = (d, Ok tt))
    /\ ((forall d0 p d1,
           os_makedirs os d0 p = (d1, Ok tt) ->
           os_path_exists os d1 p = true
           /\ forall q, os_path_exists os d0 q = true ->
                        os_path_exists os d1 q = true) ->
        forall d', create_directories os self d = (d', Ok tt) ->
          os_path_exists os d'
            (os_path_abspath os (os_path_normpath os (output_folder self)))
          = true
          /\ os_path_exists os d'
               (os_path_abspath os (os_path_normpath os (speaker_folder self)))
             = true
          /\ forall q, os_path_exists os d q = true ->
                       os_path_exists os d' q = true).
Proof.
  intros disk os self d. unfold create_directories.
  cbn [create_directories_loop]. cbv zeta.
  set (po := os_path_abspath os (os_path_normpath os (output_folder self))).
  set (ps := os_path_abspath os (os_path_normpath os (speaker_folder self))).
  split.
  - intros Ho Hs. now rewrite Ho, Hs.
  - intros Hmk d'.
    destruct (os_path_exists os d po) eqn:Ho; cbn [negb].
    + destruct (os_path_exists os d ps) eqn:Hs; cbn [negb].
      * intros [= <-]. auto.
      * destruct (os_makedirs os d ps) as [d1 [[] | e]] eqn:Hm;
          [| discriminate].
        intros [= <-]. destruct (Hmk _ _ _ Hm) as [H1 H2]. auto.
    + destruct (os_makedirs os d po) as [d1 [[] | e]] eqn:Hm;
        [| discriminate].
      destruct (Hmk _ _ _ Hm) as [H1 H2].
      destruct (os_path_exists os d1 ps) eqn:Hs; cbn [negb].
      * intros [= <-]. auto.
      * destruct (os_makedirs os d1 ps) as [d2 [[] | e]] eqn:Hm2;
          [| discriminate].
        intros [= <-]. destruct (Hmk _ _ _ Hm2) as [H3 H4]. auto.
Qed.

Lemma create_directories_makes_both_folders_witness :
  os_path_exists DemoDisk.os
    (fst (create_directories DemoDisk.os
            (Demo.init false true "local" "cuda") ["/speakers"%string]))
    "/out" = true.
Proof.
  refine (proj1 (proj2 (create_directories_makes_both_folders (list string)
                          DemoDisk.os (Demo.init false true "local" "cuda")
                          ["/speakers"%string]) _ _ _)).
  - intros d0 p d1 [= <-]. split.
    + cbn. now rewrite String.eqb_refl.
    + intros q Hq. cbn in Hq. cbn. rewrite Hq. apply orb_true_r.
  - reflexivity.
Defined.

(** ** The folders, continued *)

(** X16: changing the speaker folder keeps the latent cache. A name that was
    cached before the change is answered from the cache afterwards, without
    extraction, whatever references are given; and a synthesis call for that
    name in the new folder extracts nothing and leaves the cache as it is,
    whatever the name resolves to there. *)
Theorem set_speaker_folder_keeps_cached_latents :
  forall (disk : Type) (os : Os disk) (w : World) (folder name : string)
         (self self' : TTSWrapper) (d d' : disk) (r : result unit)
         (v : latents),
    latents_cache self !! name = Some v ->
    set_speaker_folder os folder self d = (self', d', r) ->
    (os_path_exists os d folder && os_path_isdir os d folder = true ->
     speaker_folder self' = folder)
    /\ latents_cache self' = latents_cache self
    /\ (forall wav : speaker_wav,
          get_or_create_latents w name wav self' = (self', Ok v))
    /\ (forall (text : list N) (lang out : string) (s2 : TTSWrapper)
               (r2 : result string),
          process_tts_to_file w text name lang out self' = (s2, r2) ->
          extractions s2 = extractions self'
          /\ latents_cache s2 = latents_cache self).
Proof.
  intros disk os w folder name self self' d d' r v Hhit Hset.
  assert (Hc : latents_cache self' = latents_cache self
               /\ (os_path_exists os d folder && os_path_isdir os d folder
                   = true -> speaker_folder self' = folder)).
  { unfold set_speaker_folder in Hset.
    destruct (os_path_exists os d folder && os_path_isdir os d folder).
    - destruct (create_directories os _ d) as [d1 r1].
      injection Hset as <- _ _. auto.
    - injection Hset as <- _ _. split; [reflexivity | discriminate]. }
  destruct Hc as [Hc Hf].
  assert (Hhit' : latents_cache self' !! name = Some v) by now rewrite Hc.
  split; [exact Hf |]. split; [exact Hc |]. split.
  - intros wav. rewrite get_or_create_latents_run, Hhit'. reflexivity.
  - intros text lang out s2 r2 Hrun.
    destruct (process_tts_to_file_cached w self' s2 text name lang out r2 v
                Hhit' Hrun) as [He Hl].
    split; [exact He | congruence].
Qed.

Lemma set_speaker_folder_keeps_cached_latents_witness :
  speaker_folder
    (fst (fst (set_speaker_folder DemoDisk.os "/voices"
                 (fst (get_or_create_latents (Demo.world true) "dave"
                         (WavPath "/speakers/alice.wav")
                         (Demo.init false true "local" "cuda")))
                 ["/voices"; "/out"]%string)))
  = "/voices"%string
  /\ snd (process_tts_to_file (Demo.world true) (str "hi") "dave" "en"
            "out.wav"
            (fst (fst (set_speaker_folder DemoDisk.os "/voices"
                         (fst (get_or_create_latents (Demo.world true) "dave"
                                 (WavPath "/speakers/alice.wav")
                                 (Demo.init false true "local" "cuda")))
                         ["/voices"; "/out"]%string))))
     = Ok "/out/out.wav"%string
  /\ extractions
       (fst (process_tts_to_file (Demo.world true) (str "hi") "dave" "en"
               "out.wav"
               (fst (fst (set_speaker_folder DemoDisk.os "/voices"
                            (fst (get_or_create_latents (Demo.world true)
                                    "dave" (WavPath "/speakers/alice.wav")
                                    (Demo.init false true "local" "cuda")))
                            ["/voices"; "/out"]%string)))))
     = 1.
Proof.
  set (s1 := fst (get_or_create_latents (Demo.world true) "dave"
                    (WavPath "/speakers/alice.wav")
                    (Demo.init false true "local" "cuda"))).
  set (y := set_speaker_folder DemoDisk.os "/voices" s1
              ["/voices"; "/out"]%string).
  set (x := process_tts_to_file (Demo.world true) (str "hi") "dave" "en"
              "out.wav" (fst (fst y))).
  assert (Hhit : latents_cache s1 !! "dave"%string
                 = Some (Tensor 0, Tensor 1000)) by (vm_compute; reflexivity).
  assert (Hset : y = (fst (fst y), snd (fst y), snd y))
    by (now destruct y as [[a b] c]).
  destruct (set_speaker_folder_keeps_cached_latents (list string)
              DemoDisk.os (Demo.world true) "/voices" "dave" s1
              (fst (fst y)) ["/voices"; "/out"]%string (snd (fst y))
              (snd y) (Tensor 0, Tensor 1000) Hhit Hset)
    as (Hf & _ & _ & Hcall).
  split; [exact (Hf eq_refl) |]. split; [vm_compute; reflexivity |].
  destruct (Hcall (str "hi") "en"%string "out.wav"%string (fst x) (snd x)
              (surjective_pairing x)) as [He _].
  rewrite He. vm_compute. reflexivity.
Defined.

(** ** The language table *)

(** Pairwise distinct strings of an explicit list. *)
Ltac distinct_strings :=
  repeat (apply List.NoDup_cons;
          [cbn; intros H;
           repeat (destruct H as [H | H]; [discriminate |]); exact H |]);
  apply List.NoDup_nil.

Lemma dict_get_set (d : dict) (k v x : string) :
  dict_get (dict_set d k v) x
  = if String.eqb x k then Some v else dict_get d x.
Proof.
  induction d as [| [k' v'] d IH]; cbn; [reflexivity |].
  destruct (String.eqb k k') eqn:E1; cbn.
  - apply String.eqb_eq in E1. subst k'.
    now destruct (String.eqb x k).
  - rewrite IH. destruct (String.eqb x k') eqn:E2; [| reflexivity].
    apply String.eqb_eq in E2. subst k'.
    rewrite String.eqb_sym in E1. now rewrite E1.
Qed.

(** The comprehension leaves alone the names that the rest of the items do
    not mention. *)
Lemma reverse_dict_skip (d r : dict) (name : string) :
  ~ In name (map snd d) ->
  dict_get (fold_left (fun r kv => dict_set r (snd kv) (fst kv)) d r) name
  = dict_get r name.
Proof.
  revert r. induction d as [| [k v] d IH]; intros r Hn; cbn; [reflexivity |].
  rewrite IH by (intros H; apply Hn; now right).
  rewrite dict_get_set. cbn.
  destruct (String.eqb name v) eqn:E; [| reflexivity].
  apply String.eqb_eq in E. subst v. exfalso. apply Hn. now left.
Qed.

Lemma reverse_dict_In (d r : dict) (code name : string) :
  List.NoDup (map snd d) ->
  In (code, name) d ->
  dict_get (fold_left (fun r kv => dict_set r (snd kv) (fst kv)) d r) name
  = Some code.
Proof.
  revert r. induction d as [| [k v] d IH]; intros r Hnd Hin; [destruct Hin |].
  cbn in Hnd. apply List.NoDup_cons_iff in Hnd. destruct Hnd as [Hv Hnd].
  destruct Hin as [[= -> ->] | Hin]; cbn.
  - rewrite reverse_dict_skip by exact Hv.
    rewrite dict_get_set. now rewrite String.eqb_refl.
  - now apply IH.
Qed.

Lemma reverse_dict_get (d r : dict) (code name : string) :
  dict_get (fold_left (fun r kv => dict_set r (snd kv) (fst kv)) d r) name
  = Some code ->
  In (code, name) d \/ dict_get r name = Some code.
Proof.
  revert r. induction d as [| [k v] d IH]; intros r H; cbn in H; [now right |].
  destruct (IH _ H) as [Hin | Hr]; [left; now right |].
  rewrite dict_get_set in Hr. cbn in Hr.
  destruct (String.eqb name v) eqn:E; [| now right].
  apply String.eqb_eq in E. subst v. injection Hr as ->. left. now left.
Qed.

Lemma dict_get_In (d : dict) (k v : string) :
  List.NoDup (map fst d) -> (dict_get d k = Some v <-> In (k, v) d).
Proof.
  induction d as [| [k' v'] d IH]; cbn; intros Hnd.
  - split; [discriminate | tauto].
  - apply List.NoDup_cons_iff in Hnd. destruct Hnd as [Hk Hnd].
    destruct (String.eqb k k') eqn:E.
    + apply String.eqb_eq in E. subst k'. split.
      * intros [= ->]. now left.
      * intros [[= ->] | Hin]; [reflexivity |].
        exfalso. apply Hk. apply in_map_iff. now exists (k, v).
    + apply String.eqb_neq in E. rewrite (IH Hnd). split.
      * intros Hin. now right.
      * intros [[= -> ->] | Hin]; [congruence | exact Hin].
Qed.

(** X17: the comprehension that builds [reversed_supported_languages] inverts
    a table whose names are pairwise distinct: a name is mapped to a code
    exactly when the table has that code with that name. The names of
    [supported_languages] are distinct, so [list_languages] returns its
    inverse: it maps a name to a code exactly when [supported_languages] maps
    the code to the name, and it has the same number of entries. *)
Theorem list_languages_inverts_supported_languages :
  (forall (d : dict) (code name : string),
     List.NoDup (map snd d) ->
     (dict_get (reverse_dict d) name = Some code <-> In (code, name) d))
  /\ (forall (self : TTSWrapper) (code name : string),
        dict_get (list_languages self) name = Some code
        <-> dict_get supported_languages code = Some name)
  /\ (forall self : TTSWrapper,
        length (list_languages self) = length supported_languages).
Proof.
  assert (Hgen : forall (d : dict) (code name : string),
             List.NoDup (map snd d) ->
             (dict_get (reverse_dict d) name = Some code
              <-> In (code, name) d)).
  { intros d code name Hnd. unfold reverse_dict. split.
    - intros H. destruct (reverse_dict_get d [] code name H) as [Hin | Hr];
        [exact Hin | discriminate].
    - now apply reverse_dict_In. }
  split; [exact Hgen |]. split.
  - intros self code name.
    unfold list_languages, reversed_supported_languages.
    rewrite Hgen by (vm_compute; distinct_strings).
    symmetry. apply dict_get_In. vm_compute. distinct_strings.
  - intros self. vm_compute. reflexivity.
Qed.

Lemma list_languages_inverts_supported_languages_witness :
  dict_get (list_languages (Demo.init false true "local" "cuda")) "English"
  = Some "en"%string.
Proof.
  apply (proj1 (list_languages_inverts_supported_languages)
           supported_languages "en" "English").
  - vm_compute. distinct_strings.
  - vm_compute. auto 10.
Defined.
